(** * The umcd wire protocol session (umcd_protocol)

    A shallow embedding of the request/reply cycle of [umcd_protocol]
    (second translation unit of [src/game_events/handlers.hpp]):
    the constructors, [handle_request], [read_request_body],
    [dispatch_request], the error-reply helpers and [complete_request].

    The member functions are written in a small state-and-exception monad
    over the session object, the heap of shared action factories and the
    stream of observable effects (log lines, asynchronous operations handed
    to boost::asio, action invocations).  The asio reactor is a step
    relation that completes outstanding operations and runs the bound
    completion handler. *)

From stdpp Require Import gmap strings list pretty.
From Stdlib Require Import ZArith NArith.

Local Open Scope string_scope.
Local Open Scope list_scope.

(** ** Data *)

(** Modelled from the spec: [config.hpp] is not part of the sources; a
    config is the Document of the data model, a node with string
    attributes and an ordered sequence of named children. *)
#[warnings="-register-all"]
Inductive config : Type :=
  Config (attributes : list (string * string)) (children : list (string * config)).

Definition empty_config : config := Config [] [].

(** [boost::system::error_code]: zero means success. *)
Record error_code : Type := { ec_value : Z; ec_message : string }.

Definition failed (ec : error_code) : bool := negb (ec_value ec =? 0)%Z.

Definition no_error : error_code := {| ec_value := 0; ec_message := "Success" |}.

(** The two enumerators of [umcd_error.hpp] that the protocol uses. *)
Inductive umcd_error : Type := invalid_packet | request_header_too_large.

(** The two exception families caught by the protocol.  [twml_exception]
    is not a [std::exception], hence the two catch clauses.  The code has
    no [catch(...)]: a throwable of any other type would leave the
    handlers, and is not represented here. *)
Record std_exception : Type := { what : string }.
Record twml_exception : Type := { user_message : string; dev_message : string }.

Inductive exn : Type :=
| ex_std (e : std_exception)
| ex_twml (e : twml_exception).

(** The action classes registered by the constructor. *)
Inductive action : Type := request_license_action | request_umc_upload_action.

(** A validator is a schema reference; it belongs to one request kind. *)
Record schema : Type := { schema_kind : string }.

(** Modelled from the spec: [request_info] is declared in the absent
    [umcd_protocol.hpp]; it is the action descriptor of the data model,
    the record of kind name, validator and handler. *)
Record request_info : Type :=
  { info_name : string; info_validator : schema; info_action : action }.

(** [action_factory_type]: products keyed by request name. *)
Abbreviation action_factory_type := (gmap string request_info).

Definition connection_ptr : Type := nat.

Record wml_request : Type :=
  { request_connection : option connection_ptr; request_metadata : config }.

Definition default_request : wml_request :=
  {| request_connection := None; request_metadata := empty_config |}.

(** Modelled from the spec: [wml_reply] is declared elsewhere; a reply is
    a status with either a success payload or a single error message. *)
Inductive wml_reply : Type :=
| empty_reply
| success_reply (payload : config)
| error_reply (message : string).

(** The session object.  [action_factory] is a [boost::shared_ptr]: an
    address into the heap of factories. *)
Record umcd_protocol : Type :=
  { server_config : config;
    action_factory : nat;
    client_connection : option connection_ptr;
    raw_request_size : string;
    request_body : string;
    request : wml_request;
    reply : wml_reply }.

(** ** Observable effects *)

Inductive severity : Type := sev_trace | sev_debug | sev_info | sev_error.

Inductive callback : Type :=
| cb_read_request_body
| cb_dispatch_request
| cb_complete_request.

Inductive buffer_id : Type := buf_raw_request_size | buf_request_body.

Inductive event : Type :=
| FunctionTracer (fn : string)
| Log (sev : severity) (text : string)
| Resize (n : N)
| AsyncRead (buf : buffer_id) (first : nat) (len : nat) (handler : callback)
| AsyncWrite (buffers : list string) (handler : callback)
| Execute (a : action) (metadata : config)
| Completion (handler : callback) (ec : error_code)
| Undefined (what : string).

(** Modelled from the spec: the action classes are not part of the
    sources.  An action is executed with the session as its context and
    eventually produces a reply on it: it fills the reply and sends it
    through [async_send_reply], or keeps the session to do so later, or
    raises an error. *)
Inductive action_outcome : Type :=
| act_replied (r : wml_reply)
| act_deferred
| act_raised (e : exn).

(** ** Collaborators

    Constants and functions that the translation unit uses and that are
    declared elsewhere. *)
Class Collaborators : Type :=
  { REQUEST_HEADER_MAX_SIZE : N;
    REQUEST_HEADER_SIZE_FIELD_LENGTH : nat;
    (** [boost::lexical_cast<std::size_t>]; the left case is the
        [bad_lexical_cast] it throws. *)
    lexical_cast : string -> std_exception + N;
    (** [error_condition::message] of the umcd category. *)
    condition_message : umcd_error -> string;
    make_error_reply : string -> wml_reply;
    to_buffers : wml_reply -> list string;
    (** [peek_request_name] on a stream over the body. *)
    peek_request_name : string -> exn + string;
    (** [::read(cfg, stream, validator)]: the config it leaves in [cfg]
        and the exception it exits with, if any. *)
    read : string -> schema -> config * option exn;
    (** The text of the exception for an unknown product. *)
    unknown_product : string -> string;
    execute : action -> umcd_protocol -> action_outcome }.

(** ** The monad of member functions *)

Record world : Type :=
  { self : umcd_protocol;
    heap : gmap nat action_factory_type;
    effects : list event }.

Definition M (A : Type) : Type := world -> (exn + A) * world.

#[global] Instance M_ret : MRet M := fun A a w => (inr a, w).
#[global] Instance M_bind : MBind M := fun A B f m w =>
  match m w with
  | (inr a, w') => f a w'
  | (inl e, w') => (inl e, w')
  end.

Definition throw {A} (e : exn) : M A := fun w => (inl e, w).

(** [try { body } catch ...]: [handler] answers [None] for an exception
    that no catch clause matches. *)
Definition try_catch {A} (body : M A) (handler : exn -> option (M A)) : M A :=
  fun w =>
    match body w with
    | (inl e, w') =>
        match handler e with
        | Some h => h w'
        | None => (inl e, w')
        end
    | r => r
    end.

Definition emit (e : event) : M unit := fun w =>
  (inr tt, {| self := self w; heap := heap w; effects := effects w ++ [e] |}).

Definition this : M umcd_protocol := fun w => (inr (self w), w).

Definition the_heap : M (gmap nat action_factory_type) := fun w => (inr (heap w), w).

Definition assign (f : umcd_protocol -> umcd_protocol) : M unit := fun w =>
  (inr tt, {| self := f (self w); heap := heap w; effects := effects w |}).

Definition lift_std {A} (r : std_exception + A) : M A :=
  match r with inl e => throw (ex_std e) | inr a => mret a end.

Definition lift_exn {A} (r : exn + A) : M A :=
  match r with inl e => throw e | inr a => mret a end.

Definition set_client_connection (c : option connection_ptr) (p : umcd_protocol) :=
  {| server_config := server_config p; action_factory := action_factory p;
     client_connection := c; raw_request_size := raw_request_size p;
     request_body := request_body p; request := request p; reply := reply p |}.

Definition set_raw_request_size (s : string) (p : umcd_protocol) :=
  {| server_config := server_config p; action_factory := action_factory p;
     client_connection := client_connection p; raw_request_size := s;
     request_body := request_body p; request := request p; reply := reply p |}.

Definition set_request_body (s : string) (p : umcd_protocol) :=
  {| server_config := server_config p; action_factory := action_factory p;
     client_connection := client_connection p; raw_request_size := raw_request_size p;
     request_body := s; request := request p; reply := reply p |}.

Definition set_request (r : wml_request) (p : umcd_protocol) :=
  {| server_config := server_config p; action_factory := action_factory p;
     client_connection := client_connection p; raw_request_size := raw_request_size p;
     request_body := request_body p; request := r; reply := reply p |}.

Definition set_reply (r : wml_reply) (p : umcd_protocol) :=
  {| server_config := server_config p; action_factory := action_factory p;
     client_connection := client_connection p; raw_request_size := raw_request_size p;
     request_body := request_body p; request := request p; reply := r |}.

Definition set_metadata (c : config) (r : wml_request) : wml_request :=
  {| request_connection := request_connection r; request_metadata := c |}.

(** [std::string::resize]: truncate, or pad with NUL characters. *)
Fixpoint resize (n : nat) (s : string) : string :=
  match n with
  | O => ""
  | S n' =>
      match s with
      | EmptyString => String Ascii.zero (resize n' "")
      | String c s' => String c (resize n' s')
      end
  end.

(** ** Member functions *)

Section Protocol.
Context `{Collaborators}.

(** [BOOST_CURRENT_FUNCTION] in the two callbacks that use it. *)
Definition FN_read_request_body : string :=
  "void umcd_protocol::read_request_body(const boost::system::error_code&, std::size_t)".
Definition FN_dispatch_request : string :=
  "void umcd_protocol::dispatch_request(const boost::system::error_code&, std::size_t)".

Definition FUNCTION_TRACER (fn : string) : M unit := emit (FunctionTracer fn).

(** Dereference the shared pointer, then find the product by its key. *)
Definition resolve (h : gmap nat action_factory_type) (l : nat) (name : string)
  : option request_info :=
  match h !! l with
  | Some f => f !! name
  | None => None
  end.

(** Modelled from the spec: [generic_factory::make_product] is not in
    the sources; resolution is an exact match on the kind name and an
    unresolved kind is an error of the InvalidPacket class, that is, an
    exception that [dispatch_request] catches. *)
Definition make_product (name : string) : M request_info :=
  p ← this;
  h ← the_heap;
  match resolve h (action_factory p) name with
  | Some i => mret i
  | None => throw (ex_std {| what := unknown_product name |})
  end.

Definition get_reply : M wml_reply := p ← this; mret (reply p).

Definition get_metadata : M config := p ← this; mret (request_metadata (request p)).

Definition complete_request (error : error_code) (_ : nat) : M unit :=
  FUNCTION_TRACER "complete_request";;
  if failed error
  then emit (Log sev_info (" -- unable to send data to the client ("
                             +:+ ec_message error +:+ "). Connection dropped."))
  else mret tt.

Definition async_send_reply : M unit :=
  FUNCTION_TRACER "async_send_reply";;
  p ← this;
  emit (AsyncWrite (to_buffers (reply p)) cb_complete_request).

Definition async_send_error (error : umcd_error) : M unit :=
  assign (set_reply (make_error_reply (condition_message error)));;
  async_send_reply.

Definition async_send_invalid_packet (where_ : string) (e : std_exception) : M unit :=
  emit (Log sev_error (" -- invalid request at " +:+ where_ +:+ " (" +:+ what e +:+ ")"));;
  async_send_error invalid_packet.

Definition async_send_invalid_packet_twml (where_ : string) (e : twml_exception) : M unit :=
  emit (Log sev_error (" -- invalid request at " +:+ where_
                         +:+ " (user message=" +:+ user_message e
                         +:+ " ; dev message=" +:+ dev_message e +:+ ")"));;
  async_send_error invalid_packet.

(** [std::string::operator[]]: a string stores its [size()] characters
    followed by the terminator, and an index designates a stored character
    as long as it is at most [size()]; the index [size()] designates the
    terminator, which must not be written.  Beyond that the behaviour is
    undefined. *)
Definition subscript (s : string) (pos : nat) : option nat :=
  if (pos <=? String.length s)%nat then Some pos else None.

(** [&s[pos]]: the offset of the designated character in the storage of
    the string.  An undefined subscript is recorded as such and yields the
    raw offset. *)
Definition element_address (s : string) (pos : nat) : M nat :=
  match subscript s pos with
  | Some a => mret a
  | None => emit (Undefined "basic_string::operator[]");; mret pos
  end.

Definition read_request_body (error : error_code) (_ : nat) : M unit :=
  FUNCTION_TRACER "read_request_body";;
  if negb (failed error)
  then
    try_catch
      (p ← this;
       let request_size_s := raw_request_size p in
       request_size ← lift_std (lexical_cast request_size_s);
       emit (Log sev_debug (" -- Request of size: " +:+ pretty request_size));;
       if (REQUEST_HEADER_MAX_SIZE <? request_size)%N
       then async_send_error request_header_too_large
       else
         emit (Resize request_size);;
         assign (fun p => set_request_body (resize (N.to_nat request_size) (request_body p)) p);;
         p ← this;
         first ← element_address (request_body p) 0;
         emit (AsyncRead buf_request_body first (String.length (request_body p))
                 cb_dispatch_request))
      (fun e =>
         match e with
         | ex_std e => Some (async_send_invalid_packet FN_read_request_body e)
         | ex_twml _ => None
         end)
  else mret tt.

(** The action runs on the session: it may fill the reply and send it,
    keep the session for later, or raise. *)
Definition action_execute (a : action) : M unit :=
  p ← this;
  emit (Execute a (request_metadata (request p)));;
  match execute a p with
  | act_replied r => assign (set_reply r);; async_send_reply
  | act_deferred => mret tt
  | act_raised e => throw e
  end.

Definition dispatch_request (err : error_code) (_ : nat) : M unit :=
  FUNCTION_TRACER "dispatch_request";;
  if negb (failed err)
  then
    p ← this;
    let request_stream := request_body p in
    try_catch
      (request_name ← lift_exn (peek_request_name request_stream);
       emit (Log sev_info (" -- request: " +:+ request_name));;
       info ← make_product request_name;
       emit (Log sev_info (" -- request:" +:+ String (Ascii.ascii_of_nat 10) (request_body p)));;
       assign (set_request {| request_connection := client_connection p;
                              request_metadata := empty_config |});;
       let '(cfg, raised) := read request_stream (info_validator info) in
       assign (fun p => set_request (set_metadata cfg (request p)) p);;
       match raised with Some e => throw e | None => mret tt end;;
       emit (Log sev_debug " -- request validated.");;
       action_execute (info_action info))
      (fun e =>
         match e with
         | ex_std e => Some (async_send_invalid_packet FN_dispatch_request e)
         | ex_twml e => Some (async_send_invalid_packet_twml FN_dispatch_request e)
         end)
  else mret tt.

Definition handle_request (client : connection_ptr) : M unit :=
  assign (set_client_connection (Some client));;
  FUNCTION_TRACER "handle_request";;
  emit (AsyncRead buf_raw_request_size 0 REQUEST_HEADER_SIZE_FIELD_LENGTH
          cb_read_request_body).

(** *** Constructors *)

Definition update_heap (f : gmap nat action_factory_type -> gmap nat action_factory_type)
  : M unit := fun w =>
  (inr tt, {| self := self w; heap := f (heap w); effects := effects w |}).

Definition descriptor (a : action) (request_name : string) : request_info :=
  {| info_name := request_name;
     info_validator := {| schema_kind := request_name |};
     info_action := a |}.

(** Modelled from the spec: [register_request_info] is a member template
    of the absent header; it registers, under the kind name, the
    descriptor made of the validator of that kind and the action.  The
    registry is append-only: registering a kind a second time is an error
    that fails at once and leaves the registry as it is. *)
Definition register_request_info (a : action) (request_name : string) : M unit :=
  p ← this;
  h ← the_heap;
  match resolve h (action_factory p) request_name with
  | Some _ => throw (ex_std {| what := "duplicate request kind " +:+ request_name |})
  | None =>
      update_heap
        (alter (insert request_name (descriptor a request_name)) (action_factory p))
  end.

(** Members that a constructor leaves default-initialised.  The header
    array holds no defined characters yet; NUL stands for them. *)
Definition default_members (server_config : config) (action_factory : nat)
  : umcd_protocol :=
  {| server_config := server_config;
     action_factory := action_factory;
     client_connection := None;
     raw_request_size := resize REQUEST_HEADER_SIZE_FIELD_LENGTH "";
     request_body := "";
     request := default_request;
     reply := empty_reply |}.

(** [umcd_protocol::umcd_protocol(const config&)]: [make_shared]
    allocates a fresh, empty factory. *)
Definition umcd_protocol_new (server_config : config)
    (h : gmap nat action_factory_type) : umcd_protocol * gmap nat action_factory_type :=
  let l := fresh (dom h) in
  let w := {| self := default_members server_config l;
              heap := <[l := ∅]> h;
              effects := [] |} in
  let '(_, w') :=
    (register_request_info request_license_action "request_license";;
     register_request_info request_umc_upload_action "request_umc_upload") w in
  (self w', heap w').

(** [umcd_protocol::umcd_protocol(const umcd_protocol&)]. *)
Definition umcd_protocol_copy (protocol : umcd_protocol) : umcd_protocol :=
  default_members (server_config protocol) (action_factory protocol).

(** ** The reactor

    An asynchronous operation stays outstanding until the reactor
    completes it: the bytes that arrived are stored in the buffer the
    operation names, and the bound member function runs. *)

Record system : Type :=
  { sys_world : world;
    outstanding : list event }.

Definition is_io (e : event) : bool :=
  match e with
  | AsyncRead _ _ _ _ | AsyncWrite _ _ => true
  | _ => false
  end.

Definition bound (cb : callback) : error_code -> nat -> M unit :=
  match cb with
  | cb_read_request_body => read_request_body
  | cb_dispatch_request => dispatch_request
  | cb_complete_request => complete_request
  end.

Definition overwrite (first : nat) (data s : string) : string :=
  String.substring 0 first s +:+ data
    +:+ String.substring (first + String.length data)
          (String.length s - (first + String.length data)) s.

Definition store (buf : buffer_id) (first : nat) (data : string) (w : world) : world :=
  {| self :=
       match buf with
       | buf_raw_request_size =>
           set_raw_request_size (overwrite first data (raw_request_size (self w))) (self w)
       | buf_request_body =>
           set_request_body (overwrite first data (request_body (self w))) (self w)
       end;
     heap := heap w;
     effects := effects w |}.

(** Run a member function to its end; the operations it handed to asio
    join the outstanding ones. *)
Definition invoke (m : M unit) (rest : list event) (w : world) : system :=
  let w' := snd (m w) in
  {| sys_world := w';
     outstanding := rest ++ filter is_io (drop (length (effects w)) (effects w')) |}.

(** Completion of the [i]-th outstanding operation with [ec], [data]
    being the bytes read (for a write, only its length matters). *)
Definition complete (i : nat) (ec : error_code) (data : string) (s : system)
  : option system :=
  match outstanding s !! i with
  | Some (AsyncRead buf first len cb) =>
      if (String.length data <=? len)%nat
         && (failed ec || (String.length data =? len)%nat)
      then Some (invoke (emit (Completion cb ec);; bound cb ec (String.length data))
                   (delete i (outstanding s))
                   (store buf first data (sys_world s)))
      else None
  | Some (AsyncWrite _ cb) =>
      Some (invoke (emit (Completion cb ec);; bound cb ec (String.length data))
              (delete i (outstanding s)) (sys_world s))
  | _ => None
  end.

Fixpoint run (cs : list (nat * error_code * string)) (s : system) : option system :=
  match cs with
  | [] => Some s
  | (i, ec, data) :: cs' =>
      match complete i ec data s with
      | Some s' => run cs' s'
      | None => None
      end
  end.

(** A session starts when the acceptor calls [handle_request]. *)
Definition start (client : connection_ptr) (w : world) : system :=
  invoke (handle_request client) [] w.

(** *** The phases of a session, read off the stream of effects *)

Inductive phase : Type :=
| Idle | AwaitingHeader | ParsingHeader | AwaitingBody | Dispatching | Replying | Closed.

Definition phase_step (ph : phase) (e : event) : option phase :=
  match e with
  | AsyncRead buf_raw_request_size _ _ cb_read_request_body =>
      match ph with Idle => Some AwaitingHeader | _ => None end
  | Completion cb_read_request_body _ =>
      match ph with AwaitingHeader => Some ParsingHeader | _ => None end
  | AsyncRead buf_request_body _ _ cb_dispatch_request =>
      match ph with ParsingHeader => Some AwaitingBody | _ => None end
  | Completion cb_dispatch_request _ =>
      match ph with AwaitingBody => Some Dispatching | _ => None end
  | AsyncWrite _ cb_complete_request =>
      match ph with ParsingHeader | Dispatching => Some Replying | _ => None end
  | Completion cb_complete_request _ =>
      match ph with Replying => Some Closed | _ => None end
  | AsyncRead _ _ _ _ | AsyncWrite _ _ => None
  | FunctionTracer _ | Log _ _ | Resize _ | Execute _ _ | Undefined _ => Some ph
  end.

Fixpoint phases (ph : phase) (evs : list event) : option phase :=
  match evs with
  | [] => Some ph
  | e :: evs' =>
      match phase_step ph e with
      | Some ph' => phases ph' evs'
      | None => None
      end
  end.

(** The operations a phase leaves outstanding. *)
Definition in_flight (ph : phase) (ops : list event) : Prop :=
  match ph with
  | AwaitingHeader =>
      exists first len, ops = [AsyncRead buf_raw_request_size first len cb_read_request_body]
  | AwaitingBody =>
      exists first len, ops = [AsyncRead buf_request_body first len cb_dispatch_request]
  | Replying => exists bufs, ops = [AsyncWrite bufs cb_complete_request]
  | Idle | ParsingHeader | Dispatching | Closed => ops = []
  end.

(** A session whose effects so far spell out a phase, with exactly the
    operation of that phase outstanding. *)
Definition in_phase (ph : phase) (s : system) : Prop :=
  phases Idle (effects (sys_world s)) = Some ph /\ in_flight ph (outstanding s).

(** The phase a session is in when a completion handler starts to run. *)
Definition after_completion (cb : callback) : phase :=
  match cb with
  | cb_read_request_body => ParsingHeader
  | cb_dispatch_request => Dispatching
  | cb_complete_request => Closed
  end.

(** *** Views of a stream of effects *)

Definition writes (evs : list event) : list (list string) :=
  omap (fun e => match e with AsyncWrite b _ => Some b | _ => None end) evs.

Definition reads (evs : list event) : list (buffer_id * nat) :=
  omap (fun e => match e with AsyncRead b _ n _ => Some (b, n) | _ => None end) evs.

Definition resizes (evs : list event) : list N :=
  omap (fun e => match e with Resize n => Some n | _ => None end) evs.

Definition executions (evs : list event) : list action :=
  omap (fun e => match e with Execute a _ => Some a | _ => None end) evs.

Definition logged (evs : list event) : list (severity * string) :=
  omap (fun e => match e with Log s t => Some (s, t) | _ => None end) evs.

(** The session once [dispatch_request] has read the request into its
    metadata. *)
Definition received (cfg : config) (p : umcd_protocol) : umcd_protocol :=
  set_request {| request_connection := client_connection p;
                 request_metadata := cfg |} p.

(** The log line of the two [async_send_invalid_packet] overloads. *)
Definition invalid_packet_log (where_ : string) (e : exn) : event :=
  match e with
  | ex_std e =>
      Log sev_error (" -- invalid request at " +:+ where_ +:+ " (" +:+ what e +:+ ")")
  | ex_twml e =>
      Log sev_error (" -- invalid request at " +:+ where_
                       +:+ " (user message=" +:+ user_message e
                       +:+ " ; dev message=" +:+ dev_message e +:+ ")")
  end.

(** What the session does once [async_send_invalid_packet] is reached. *)
Definition invalid_packet_effects (where_ : string) (e : exn) : list event :=
  [invalid_packet_log where_ e;
   FunctionTracer "async_send_reply";
   AsyncWrite (to_buffers (make_error_reply (condition_message invalid_packet)))
     cb_complete_request].

(** The two log lines that open a dispatch. *)
Definition dispatch_prologue (name body : string) : list event :=
  [Log sev_info (" -- request: " +:+ name);
   Log sev_info (" -- request:" +:+ String (Ascii.ascii_of_nat 10) body)].

(** The effects of the action once validation has passed. *)
Definition action_effects (a : action) (p : umcd_protocol) : list event :=
  Execute a (request_metadata (request p))
    :: match execute a p with
       | act_replied r =>
           [FunctionTracer "async_send_reply"; AsyncWrite (to_buffers r) cb_complete_request]
       | act_deferred => []
       | act_raised e => invalid_packet_effects FN_dispatch_request e
       end.

Definition action_reply (a : action) (p : umcd_protocol) : wml_reply :=
  match execute a p with
  | act_replied r => r
  | act_deferred => reply p
  | act_raised _ => make_error_reply (condition_message invalid_packet)
  end.

Definition add_effects (new : list event) (w : world) : world :=
  {| self := self w; heap := heap w; effects := effects w ++ new |}.

Definition with_self (p : umcd_protocol) (w : world) : world :=
  {| self := p; heap := heap w; effects := effects w |}.

(** The effects of [w'] that [w] does not have yet. *)
Definition since (w w' : world) : list event :=
  drop (length (effects w)) (effects w').

End Protocol.

(** ** A concrete set of collaborators

    Used to run the session on concrete requests: a ten-character decimal
    header, bodies of the form "kind payload", and a reply serialised as a
    status line followed by its text. *)
Module Demo.

Definition digit_of (c : Ascii.ascii) : option N :=
  let n := Ascii.N_of_ascii c in
  if ((48 <=? n) && (n <=? 57))%N then Some (n - 48)%N else None.

Fixpoint parse_digits (acc : N) (s : string) : option N :=
  match s with
  | EmptyString => Some acc
  | String c s' =>
      match digit_of c with
      | Some d => parse_digits (acc * 10 + d)%N s'
      | None => None
      end
  end.

Definition bad_lexical_cast : std_exception :=
  {| what := "bad lexical cast: source type value could not be interpreted as target" |}.

Definition decimal (s : string) : std_exception + N :=
  match s with
  | EmptyString => inl bad_lexical_cast
  | _ =>
      match parse_digits 0 s with
      | Some n => if (n <? 2 ^ 64)%N then inr n else inl bad_lexical_cast
      | None => inl bad_lexical_cast
      end
  end.

Fixpoint split_at_space (s : string) : string * option string :=
  match s with
  | EmptyString => ("", None)
  | String c s' =>
      if Ascii.eqb c Ascii.Space then ("", Some s')
      else let '(a, b) := split_at_space s' in (String c a, b)
  end.

Definition peek (body : string) : exn + string :=
  match fst (split_at_space body) with
  | EmptyString => inl (ex_std {| what := "request name not found" |})
  | name => inr name
  end.

Definition parse (body : string) (v : schema) : config * option exn :=
  match snd (split_at_space body) with
  | Some payload => (Config [("payload", payload)] [], None)
  | None =>
      (empty_config,
       Some (ex_twml {| user_message := "The " +:+ schema_kind v +:+ " request is incomplete.";
                        dev_message := "schema " +:+ schema_kind v
                                         +:+ ": mandatory key payload is missing" |}))
  end.

Definition serialise (r : wml_reply) : list string :=
  match r with
  | empty_reply => []
  | success_reply _ => ["[success]"]
  | error_reply m => ["[error]"; m]
  end.

Definition collaborators : Collaborators :=
  {| REQUEST_HEADER_MAX_SIZE := 1000000;
     REQUEST_HEADER_SIZE_FIELD_LENGTH := 10;
     lexical_cast := decimal;
     condition_message := fun e =>
       match e with
       | invalid_packet => "The packet is invalid."
       | request_header_too_large => "The request header is too large."
       end;
     make_error_reply := error_reply;
     to_buffers := serialise;
     peek_request_name := peek;
     read := parse;
     unknown_product := fun name => "unknown product " +:+ name;
     execute := fun a p => act_replied (success_reply (request_metadata (request p))) |}.

(** A freshly constructed protocol on an empty heap. *)
Definition fresh_world : world :=
  let '(p, h) := umcd_protocol_new (H := collaborators) empty_config ∅ in
  {| self := p; heap := h; effects := [] |}.

(** The session after the header, and then the body, were read. *)
Definition with_header (header : string) (w : world) : world :=
  store buf_raw_request_size 0 header w.

Definition with_body (body : string) (w : world) : world :=
  store buf_request_body 0 body
    {| self := set_request_body (resize (String.length body) "") (self w);
       heap := heap w; effects := effects w |}.

(** The factory that the constructor fills. *)
Definition factory : gmap string request_info :=
  <["request_umc_upload" := descriptor request_umc_upload_action "request_umc_upload"]>
    (<["request_license" := descriptor request_license_action "request_license"]> ∅).

(** A connection dropped by the peer. *)
Definition eof : error_code := {| ec_value := 2; ec_message := "End of file" |}.

(** A second way for a read to fail. *)
Definition reset : error_code :=
  {| ec_value := 104; ec_message := "Connection reset by peer" |}.

(** One whole cycle: header, body, reply. *)
Definition cycle : list (nat * error_code * string) :=
  [(0, no_error, "0000000017"); (0, no_error, "request_license x"); (0, no_error, "")].

Definition served : system :=
  default (start (H := collaborators) 1 fresh_world)
    (run (H := collaborators) cycle (start (H := collaborators) 1 fresh_world)).

End Demo.


(** ** Measures on sessions *)

Section Measures.
Context `{Collaborators}.

(** What the frame reader may ask of asio: the header read covers the
    whole header array, a body read starts at the first character of the
    body and is no longer than [REQUEST_HEADER_MAX_SIZE], and the body is
    never resized beyond that size. *)
Definition within_limit (e : event) : Prop :=
  match e with
  | Resize n => (n <= REQUEST_HEADER_MAX_SIZE)%N
  | AsyncRead buf_raw_request_size first len _ =>
      first = 0 /\ len = REQUEST_HEADER_SIZE_FIELD_LENGTH
  | AsyncRead buf_request_body first len _ =>
      first = 0 /\ (N.of_nat len <= REQUEST_HEADER_MAX_SIZE)%N
  | _ => True
  end.

End Measures.

(** The position of a phase in the cycle. *)
Definition rank (ph : phase) : nat :=
  match ph with
  | Idle => 0
  | AwaitingHeader => 1
  | ParsingHeader => 2
  | AwaitingBody => 3
  | Dispatching => 4
  | Replying => 5
  | Closed => 6
  end.

(** The number of completions a session in a phase can still take. *)
Definition remaining (ph : phase) : nat :=
  match ph with
  | AwaitingHeader => 3
  | AwaitingBody => 2
  | Replying => 1
  | Idle | ParsingHeader | Dispatching | Closed => 0
  end.

(** Whether the reply has been handed to asio, and whether
    [dispatch_request] may have run, in a phase. *)
Definition written (ph : phase) : nat :=
  match ph with
  | Replying | Closed => 1
  | _ => 0
  end.

Definition dispatched (ph : phase) : nat :=
  match ph with
  | Dispatching | Replying | Closed => 1
  | _ => 0
  end.

(** The completions of body reads in a stream of effects. *)
Definition dispatches (evs : list event) : list error_code :=
  omap (fun e => match e with
                 | Completion cb_dispatch_request ec => Some ec
                 | _ => None
                 end) evs.

(** ** A second set of collaborators

    As [Demo.collaborators], with an upload action that refuses every
    request by raising. *)
Module Scenario.

Definition refusal : exn := ex_std {| what := "uploads are closed" |}.

Definition collaborators : Collaborators :=
  {| REQUEST_HEADER_MAX_SIZE := 1000000;
     REQUEST_HEADER_SIZE_FIELD_LENGTH := 10;
     lexical_cast := Demo.decimal;
     condition_message := fun e =>
       match e with
       | invalid_packet => "The packet is invalid."
       | request_header_too_large => "The request header is too large."
       end;
     make_error_reply := error_reply;
     to_buffers := Demo.serialise;
     peek_request_name := Demo.peek;
     read := Demo.parse;
     unknown_product := fun name => "unknown product " +:+ name;
     execute := fun a p =>
       match a with
       | request_license_action =>
           act_replied (success_reply (request_metadata (request p)))
       | request_umc_upload_action => act_raised refusal
       end |}.

Definition fresh_world : world :=
  let '(p, h) := umcd_protocol_new (H := collaborators) empty_config ∅ in
  {| self := p; heap := h; effects := [] |}.

(** A session made by the copy constructor, as the acceptor does for each
    connection. *)
Definition copied_world : world :=
  {| self := umcd_protocol_copy (H := Demo.collaborators) (self Demo.fresh_world);
     heap := heap Demo.fresh_world;
     effects := [] |}.

End Scenario.

(** ** The continuous-integration script

    [utils/travis/steps/script.sh].  The script is a function of the
    environment variables it reads and of the exit status of the commands
    it runs; it yields the commands run, in order, and its own exit
    status.  An unset variable reads as the empty string. *)
Module Travis.

Inductive command : Type :=
(** scons translations build=release --debug=time nls=true jobs=2 *)
| scons_translations
(** cd ./projectfiles/Xcode *)
| cd_xcode
(** xcodebuild ... -configuration "$CFG" *)
| xcodebuild (cfg : string)
(** cp -R "build/$CFG/The Battle for Wesnoth.app" ../../packaging/macos/... *)
| cp_app (cfg : string)
(** hdiutil create -volname "Wesnoth_${CFG}" ... "Wesnoth_${CFG}.dmg" *)
| hdiutil_create (cfg : string)
(** ./../../utils/travis/sftp and ./utils/travis/sftp, with the files. *)
| sftp (files : list string)
| ccache_s
| ccache_z
(** powershell "MSBuild.exe ... -p:Configuration=$CFG" *)
| msbuild (cfg : string)
(** sqlite3 ... "update FILES set MD5 = OLD_MD5, OLD_MD5 = '-' where ..." *)
| sqlite3_restore (cfg : string)
(** sqlite3 ... "update FILES set OLD_MD5 = '-' where OLD_MD5 != '-'" *)
| sqlite3_commit (cfg : string)
(** ./run_wml_tests -g -v -c -t "$WML_TEST_TIME" *)
| run_wml_tests (time : string)
(** docker run ... wesnoth-repo:"$IMAGE"-"$BRANCH" ./utils/travis/docker_run.sh,
    with --tty and unbuffer when [tty]. *)
| docker_run (tty : bool) (home image branch : string).

(** A shell computation: the commands run so far, and either the status
    the script exited with or a value to go on with. *)
Definition Sh (A : Type) : Type := list command -> (nat + A) * list command.

#[global] Instance Sh_ret : MRet Sh := fun A a log => (inr a, log).
#[global] Instance Sh_bind : MBind Sh := fun A B f m log =>
  match m log with
  | (inr a, log') => f a log'
  | (inl n, log') => (inl n, log')
  end.

Definition exit {A} (n : nat) : Sh A := fun log => (inl n, log).

Definition is_upload (c : command) : bool :=
  match c with sftp _ => true | _ => false end.

Definition is_hash_restore (c : command) : bool :=
  match c with sqlite3_restore _ => true | _ => false end.

Definition is_hash_commit (c : command) : bool :=
  match c with sqlite3_commit _ => true | _ => false end.

Definition is_wml_tests (c : command) : bool :=
  match c with run_wml_tests _ => true | _ => false end.

Section Script.
Variable env : string -> string.
Variable status : command -> nat.

(** Run a command; the value is its exit status. *)
Definition run (c : command) : Sh nat := fun log => (inr (status c), log ++ [c]).

(** [ "$UPLOAD_ID" != "" ] && [ "$TRAVIS_PULL_REQUEST" == "false" ] *)
Definition upload_wanted : bool :=
  negb (String.eqb (env "UPLOAD_ID") "")
  && String.eqb (env "TRAVIS_PULL_REQUEST") "false".

Definition script : Sh nat :=
  let CFG := env "CFG" in
  if String.eqb (env "TRAVIS_OS_NAME") "osx" then
    r ← run scons_translations;
    (if (r =? 0)%nat then mret tt else exit 1);;
    run cd_xcode;;
    BUILD_RET ← run (xcodebuild CFG);
    (if upload_wanted
     then run (cp_app CFG);;
          run (hdiutil_create CFG);;
          run (sftp ["Wesnoth_" +:+ CFG +:+ ".dmg"]);;
          mret tt
     else mret tt);;
    run ccache_s;;
    run ccache_z;;
    exit BUILD_RET
  else if String.eqb (env "TRAVIS_OS_NAME") "windows" then
    BUILD_RET ← run (msbuild CFG);
    (if upload_wanted
     then run (sftp ["wesnoth.exe"; "wesnothd.exe"]);; mret tt
     else mret tt);;
    (if negb (BUILD_RET =? 0)%nat
     then run (sqlite3_restore CFG)
     else run (sqlite3_commit CFG));;
    BUILD_RET ← (if String.eqb CFG "Release" && (BUILD_RET =? 0)%nat
                 then run (run_wml_tests (env "WML_TEST_TIME"))
                 else mret BUILD_RET);
    exit BUILD_RET
  else
    if negb (String.eqb (env "NLS") "only")
    then run (docker_run true (env "HOME") (env "IMAGE") (env "BRANCH"))
    else run (docker_run false (env "HOME") (env "IMAGE") (env "BRANCH")).

(** The commands run and the exit status of the script. *)
Definition travis : list command * nat :=
  match script [] with
  | (inl n, log) => (log, n)
  | (inr n, log) => (log, n)
  end.

End Script.

(** A Windows release build of a branch, with every command succeeding. *)
Definition windows_release (name : string) : string :=
  if String.eqb name "TRAVIS_OS_NAME" then "windows"
  else if String.eqb name "CFG" then "Release"
  else if String.eqb name "UPLOAD_ID" then "42"
  else if String.eqb name "TRAVIS_PULL_REQUEST" then "false"
  else "".

End Travis.

(** * Properties *)

Lemma resize_length (n : nat) (s : string) : String.length (resize n s) = n.
Proof.
  revert s; induction n as [|n IH]; intros s; simpl; [reflexivity|].
  destruct s; simpl; rewrite IH; reflexivity.
Qed.

Lemma since_app (w w' : world) (new : list event) :
  effects w' = effects w ++ new -> since w w' = new.
Proof. intros E. unfold since. rewrite E. apply drop_app_length. Qed.

Lemma since_extended (w : world) (p : umcd_protocol) (h : gmap nat action_factory_type)
    (new : list event) :
  since w {| self := p; heap := h; effects := effects w ++ new |} = new.
Proof. apply since_app. reflexivity. Qed.

Section Properties.
Context `{Collaborators}.

(** The effects of the reply helpers, as equations. *)

Lemma async_send_reply_eq (w : world) :
  async_send_reply w =
    (inr tt, {| self := self w; heap := heap w;
                effects := effects w ++ [FunctionTracer "async_send_reply";
                                         AsyncWrite (to_buffers (reply (self w)))
                                           cb_complete_request] |}).
Proof.
  unfold async_send_reply, FUNCTION_TRACER, emit, this, mbind, M_bind; simpl.
  rewrite <- app_assoc. reflexivity.
Qed.

Lemma async_send_error_eq (error : umcd_error) (w : world) :
  async_send_error error w =
    (inr tt,
     {| self := set_reply (make_error_reply (condition_message error)) (self w);
        heap := heap w;
        effects := effects w ++ [FunctionTracer "async_send_reply";
                                 AsyncWrite (to_buffers (make_error_reply
                                                           (condition_message error)))
                                   cb_complete_request] |}).
Proof.
  unfold async_send_error, assign, mbind, M_bind.
  rewrite async_send_reply_eq. reflexivity.
Qed.

Lemma async_send_invalid_packet_eq (where_ : string) (e : std_exception) (w : world) :
  async_send_invalid_packet where_ e w =
    (inr tt,
     {| self := set_reply (make_error_reply (condition_message invalid_packet)) (self w);
        heap := heap w;
        effects := effects w
          ++ [Log sev_error (" -- invalid request at " +:+ where_
                               +:+ " (" +:+ what e +:+ ")");
              FunctionTracer "async_send_reply";
              AsyncWrite (to_buffers (make_error_reply (condition_message invalid_packet)))
                cb_complete_request] |}).
Proof.
  unfold async_send_invalid_packet, emit, mbind, M_bind.
  rewrite async_send_error_eq. cbn [self heap effects].
  rewrite <- app_assoc. reflexivity.
Qed.

Lemma async_send_invalid_packet_twml_eq (where_ : string) (e : twml_exception) (w : world) :
  async_send_invalid_packet_twml where_ e w =
    (inr tt,
     {| self := set_reply (make_error_reply (condition_message invalid_packet)) (self w);
        heap := heap w;
        effects := effects w
          ++ [Log sev_error (" -- invalid request at " +:+ where_
                               +:+ " (user message=" +:+ user_message e
                               +:+ " ; dev message=" +:+ dev_message e +:+ ")");
              FunctionTracer "async_send_reply";
              AsyncWrite (to_buffers (make_error_reply (condition_message invalid_packet)))
                cb_complete_request] |}).
Proof.
  unfold async_send_invalid_packet_twml, emit, mbind, M_bind.
  rewrite async_send_error_eq. cbn [self heap effects].
  rewrite <- app_assoc. reflexivity.
Qed.

Lemma since_add_effects (new : list event) (p : umcd_protocol) (w : world) :
  since w (with_self p (add_effects new w)) = new.
Proof. apply since_app. reflexivity. Qed.

Ltac step_m :=
  unfold FUNCTION_TRACER, emit, this, assign, the_heap, throw, try_catch,
    lift_std, lift_exn, mbind, mret, M_bind, M_ret, add_effects, with_self;
  cbn [self heap effects fst snd negb].

Ltac tidy := cbn [self heap effects]; rewrite <- ?app_assoc; cbn [app].

(** The first character of a string, or its terminator when the string is
    empty, can always be designated. *)
Lemma element_address_first (s : string) (w : world) :
  element_address s 0 w = (inr 0, w).
Proof. reflexivity. Qed.

(** [read_request_body], case by case. *)

Lemma read_request_body_failed (ec : error_code) (k : nat) (w : world) :
  failed ec = true ->
  read_request_body ec k w
  = (inr tt, add_effects [FunctionTracer "read_request_body"] w).
Proof. intros F. unfold read_request_body. step_m. rewrite F. reflexivity. Qed.

Lemma read_request_body_bad_cast (ec : error_code) (k : nat) (w : world) (e : std_exception) :
  failed ec = false ->
  lexical_cast (raw_request_size (self w)) = inl e ->
  read_request_body ec k w
  = (inr tt,
     with_self (set_reply (make_error_reply (condition_message invalid_packet)) (self w))
       (add_effects
          [FunctionTracer "read_request_body";
           Log sev_error (" -- invalid request at " +:+ FN_read_request_body
                            +:+ " (" +:+ what e +:+ ")");
           FunctionTracer "async_send_reply";
           AsyncWrite (to_buffers (make_error_reply (condition_message invalid_packet)))
             cb_complete_request] w)).
Proof.
  intros F L. unfold read_request_body. step_m. rewrite F. step_m. rewrite L. step_m.
  rewrite async_send_invalid_packet_eq. step_m. tidy. reflexivity.
Qed.

Lemma read_request_body_too_large (ec : error_code) (k : nat) (w : world) (n : N) :
  failed ec = false ->
  lexical_cast (raw_request_size (self w)) = inr n ->
  (REQUEST_HEADER_MAX_SIZE <? n)%N = true ->
  read_request_body ec k w
  = (inr tt,
     with_self
       (set_reply (make_error_reply (condition_message request_header_too_large)) (self w))
       (add_effects
          [FunctionTracer "read_request_body";
           Log sev_debug (" -- Request of size: " +:+ pretty n);
           FunctionTracer "async_send_reply";
           AsyncWrite (to_buffers (make_error_reply
                                     (condition_message request_header_too_large)))
             cb_complete_request] w)).
Proof.
  intros F L G. unfold read_request_body. step_m. rewrite F. step_m. rewrite L. step_m. rewrite G.
  rewrite async_send_error_eq. step_m. tidy. reflexivity.
Qed.

Lemma read_request_body_accepted (ec : error_code) (k : nat) (w : world) (n : N) :
  failed ec = false ->
  lexical_cast (raw_request_size (self w)) = inr n ->
  (REQUEST_HEADER_MAX_SIZE <? n)%N = false ->
  read_request_body ec k w
  = (inr tt,
     with_self (set_request_body (resize (N.to_nat n) (request_body (self w))) (self w))
       (add_effects
          [FunctionTracer "read_request_body";
           Log sev_debug (" -- Request of size: " +:+ pretty n);
           Resize n;
           AsyncRead buf_request_body 0 (N.to_nat n) cb_dispatch_request] w)).
Proof.
  intros F L G. unfold read_request_body. step_m. rewrite F. step_m. rewrite L. step_m. rewrite G.
  step_m. cbn [request_body set_request_body]. rewrite element_address_first. step_m.
  rewrite resize_length. tidy. reflexivity.
Qed.

(** [dispatch_request], case by case. *)

Lemma dispatch_request_failed (err : error_code) (k : nat) (w : world) :
  failed err = true ->
  dispatch_request err k w
  = (inr tt, add_effects [FunctionTracer "dispatch_request"] w).
Proof. intros F. unfold dispatch_request. step_m. rewrite F. reflexivity. Qed.

Lemma dispatch_request_no_name (err : error_code) (k : nat) (w : world) (e : exn) :
  failed err = false ->
  peek_request_name (request_body (self w)) = inl e ->
  dispatch_request err k w
  = (inr tt,
     with_self (set_reply (make_error_reply (condition_message invalid_packet)) (self w))
       (add_effects (FunctionTracer "dispatch_request"
                       :: invalid_packet_effects FN_dispatch_request e) w)).
Proof.
  intros F P. unfold dispatch_request. step_m. rewrite F. step_m. rewrite P. step_m.
  destruct e as [e|e]; step_m;
    [rewrite async_send_invalid_packet_eq | rewrite async_send_invalid_packet_twml_eq];
    tidy; reflexivity.
Qed.

Lemma dispatch_request_unknown (err : error_code) (k : nat) (w : world) (name : string) :
  failed err = false ->
  peek_request_name (request_body (self w)) = inr name ->
  resolve (heap w) (action_factory (self w)) name = None ->
  dispatch_request err k w
  = (inr tt,
     with_self (set_reply (make_error_reply (condition_message invalid_packet)) (self w))
       (add_effects
          ([FunctionTracer "dispatch_request";
            Log sev_info (" -- request: " +:+ name)]
             ++ invalid_packet_effects FN_dispatch_request
                  (ex_std {| what := unknown_product name |})) w)).
Proof.
  intros F P R. unfold dispatch_request, make_product. step_m. rewrite F. step_m.
  rewrite P. step_m. rewrite R. step_m.
  rewrite async_send_invalid_packet_eq. tidy. reflexivity.
Qed.

Lemma dispatch_request_rejected (err : error_code) (k : nat) (w : world)
    (name : string) (info : request_info) (cfg : config) (e : exn) :
  failed err = false ->
  peek_request_name (request_body (self w)) = inr name ->
  resolve (heap w) (action_factory (self w)) name = Some info ->
  read (request_body (self w)) (info_validator info) = (cfg, Some e) ->
  dispatch_request err k w
  = (inr tt,
     with_self (set_reply (make_error_reply (condition_message invalid_packet))
                  (received cfg (self w)))
       (add_effects
          (FunctionTracer "dispatch_request"
             :: dispatch_prologue name (request_body (self w))
             ++ invalid_packet_effects FN_dispatch_request e) w)).
Proof.
  intros F P R V. unfold dispatch_request, make_product. step_m. rewrite F. step_m.
  rewrite P. step_m. rewrite R. step_m. rewrite V. step_m.
  destruct e as [e|e]; step_m;
    [rewrite async_send_invalid_packet_eq | rewrite async_send_invalid_packet_twml_eq];
    tidy; reflexivity.
Qed.

Lemma dispatch_request_validated (err : error_code) (k : nat) (w : world)
    (name : string) (info : request_info) (cfg : config) :
  failed err = false ->
  peek_request_name (request_body (self w)) = inr name ->
  resolve (heap w) (action_factory (self w)) name = Some info ->
  read (request_body (self w)) (info_validator info) = (cfg, None) ->
  dispatch_request err k w
  = (inr tt,
     with_self (set_reply (action_reply (info_action info) (received cfg (self w)))
                  (received cfg (self w)))
       (add_effects
          (FunctionTracer "dispatch_request"
             :: dispatch_prologue name (request_body (self w))
             ++ Log sev_debug " -- request validated."
             :: action_effects (info_action info) (received cfg (self w))) w)).
Proof.
  intros F P R V. unfold dispatch_request, make_product, action_execute. step_m.
  rewrite F. step_m. rewrite P. step_m. rewrite R. step_m. rewrite V. step_m.
  unfold action_effects, action_reply.
  change (set_request (set_metadata cfg _) _) with (received cfg (self w)).
  destruct (execute (info_action info) (received cfg (self w))) as [r| |[e|e]]; step_m.
  - rewrite async_send_reply_eq. tidy. reflexivity.
  - tidy. destruct w as [[] ? ?]; reflexivity.
  - rewrite async_send_invalid_packet_eq. tidy. reflexivity.
  - rewrite async_send_invalid_packet_twml_eq. tidy. reflexivity.
Qed.

(** ** The frame reader *)

(** C1: when the header of a request parses to a size above
    [REQUEST_HEADER_MAX_SIZE], the session replies with the
    request_header_too_large error; the body buffer is not resized and no
    body read is issued. *)
Theorem oversized_request_is_refused
    (w : world) (error : error_code) (k : nat) (request_size : N) :
  failed error = false ->
  lexical_cast (raw_request_size (self w)) = inr request_size ->
  (REQUEST_HEADER_MAX_SIZE < request_size)%N ->
  exists w',
    read_request_body error k w = (inr tt, w')
    /\ reply (self w') = make_error_reply (condition_message request_header_too_large)
    /\ writes (since w w')
       = [to_buffers (make_error_reply (condition_message request_header_too_large))]
    /\ resizes (since w w') = []
    /\ reads (since w w') = []
    /\ request_body (self w') = request_body (self w).
Proof.
  intros F L G. apply N.ltb_lt in G.
  eexists. split; [apply (read_request_body_too_large _ _ _ _ F L G)|].
  rewrite since_add_effects. repeat split; reflexivity.
Qed.

(** C3: when the header does not parse as an unsigned integer, the
    session replies with the invalid_packet error and issues no body
    read. *)
Theorem unparsable_header_is_invalid_packet
    (w : world) (error : error_code) (k : nat) (e : std_exception) :
  failed error = false ->
  lexical_cast (raw_request_size (self w)) = inl e ->
  exists w',
    read_request_body error k w = (inr tt, w')
    /\ reply (self w') = make_error_reply (condition_message invalid_packet)
    /\ writes (since w w')
       = [to_buffers (make_error_reply (condition_message invalid_packet))]
    /\ resizes (since w w') = []
    /\ reads (since w w') = []
    /\ request_body (self w') = request_body (self w).
Proof.
  intros F L.
  eexists. split; [apply (read_request_body_bad_cast _ _ _ _ F L)|].
  rewrite since_add_effects. repeat split; reflexivity.
Qed.

(** ** Dispatch *)

Lemma resolve_registered (h : gmap nat action_factory_type) (l : nat)
    (f : gmap string request_info) (name : string) :
  h !! l = Some f -> resolve h l name = f !! name.
Proof. intros E. unfold resolve. rewrite E. reflexivity. Qed.

Lemma executions_invalid_packet (where_ : string) (e : exn) :
  executions (invalid_packet_effects where_ e) = [].
Proof. destruct e; reflexivity. Qed.

(** C2: a body that names a registered kind and passes the validator of
    that kind makes [dispatch_request] resolve the registered descriptor
    and execute its action exactly once, on the validated metadata, after
    the validation. *)
Theorem valid_request_runs_its_action_once
    (w : world) (err : error_code) (k : nat) (name : string)
    (f : gmap string request_info) (info : request_info) (cfg : config) :
  failed err = false ->
  peek_request_name (request_body (self w)) = inr name ->
  heap w !! action_factory (self w) = Some f ->
  f !! name = Some info ->
  read (request_body (self w)) (info_validator info) = (cfg, None) ->
  exists w' after,
    dispatch_request err k w = (inr tt, w')
    /\ since w w'
       = FunctionTracer "dispatch_request"
           :: dispatch_prologue name (request_body (self w))
           ++ [Log sev_debug " -- request validated."; Execute (info_action info) cfg]
           ++ after
    /\ executions after = []
    /\ executions (since w w') = [info_action info]
    /\ request_metadata (request (self w')) = cfg.
Proof.
  intros F P A R V.
  rewrite <- (resolve_registered _ _ _ name A) in R.
  eexists. exists (tail (action_effects (info_action info) (received cfg (self w)))).
  split; [apply (dispatch_request_validated _ _ _ _ _ _ F P R V)|].
  rewrite since_add_effects.
  assert (E : executions (tail (action_effects (info_action info) (received cfg (self w))))
              = []).
  { unfold action_effects. cbn [tail].
    destruct (execute _ _); [reflexivity | reflexivity | apply executions_invalid_packet]. }
  repeat split.
  - exact E.
  - unfold action_effects in *. cbn [tail] in E.
    cbn. unfold executions in E. rewrite E. reflexivity.
Qed.

(** C4: a body naming a kind that is not a key of the action factory
    gets the invalid_packet reply and no action is executed.  Keys are
    compared as strings, character for character. *)
Theorem unknown_kind_is_invalid_packet
    (w : world) (err : error_code) (k : nat) (name : string)
    (f : gmap string request_info) :
  failed err = false ->
  peek_request_name (request_body (self w)) = inr name ->
  heap w !! action_factory (self w) = Some f ->
  (forall registered, registered ∈ dom f -> registered <> name) ->
  exists w',
    dispatch_request err k w = (inr tt, w')
    /\ reply (self w') = make_error_reply (condition_message invalid_packet)
    /\ writes (since w w')
       = [to_buffers (make_error_reply (condition_message invalid_packet))]
    /\ executions (since w w') = [].
Proof.
  intros F P A N.
  assert (R : resolve (heap w) (action_factory (self w)) name = None).
  { rewrite (resolve_registered _ _ _ name A).
    apply not_elem_of_dom. intros D. exact (N name D eq_refl). }
  eexists. split; [apply (dispatch_request_unknown _ _ _ _ F P R)|].
  rewrite since_add_effects. repeat split; reflexivity.
Qed.

(** C5, as the code has it: a body that the validator of its kind
    rejects gets the invalid_packet reply with the fixed message of that
    error condition, no action is executed, and the exception is written
    to the log; for a [twml_exception] the one log line holds both its
    user message and its developer message. *)
Theorem rejected_request_is_invalid_packet
    (w : world) (err : error_code) (k : nat) (name : string)
    (f : gmap string request_info) (info : request_info) (cfg : config) (e : exn) :
  failed err = false ->
  peek_request_name (request_body (self w)) = inr name ->
  heap w !! action_factory (self w) = Some f ->
  f !! name = Some info ->
  read (request_body (self w)) (info_validator info) = (cfg, Some e) ->
  exists w',
    dispatch_request err k w = (inr tt, w')
    /\ reply (self w') = make_error_reply (condition_message invalid_packet)
    /\ writes (since w w')
       = [to_buffers (make_error_reply (condition_message invalid_packet))]
    /\ executions (since w w') = []
    /\ (forall t, e = ex_twml t ->
        logged (since w w')
        = [(sev_info, " -- request: " +:+ name);
           (sev_info, " -- request:" +:+ String (Ascii.ascii_of_nat 10)
                                           (request_body (self w)));
           (sev_error, " -- invalid request at " +:+ FN_dispatch_request
                         +:+ " (user message=" +:+ user_message t
                         +:+ " ; dev message=" +:+ dev_message t +:+ ")")]).
Proof.
  intros F P A R V.
  rewrite <- (resolve_registered _ _ _ name A) in R.
  eexists. split; [apply (dispatch_request_rejected _ _ _ _ _ _ _ F P R V)|].
  rewrite since_add_effects. repeat split.
  - cbn. destruct e; reflexivity.
  - cbn. destruct e; reflexivity.
  - intros t ->. reflexivity.
Qed.

(** ** Failed operations *)

Lemma complete_request_eq (error : error_code) (k : nat) (w : world) :
  complete_request error k w
  = (inr tt,
     add_effects
       (FunctionTracer "complete_request"
          :: if failed error
             then [Log sev_info (" -- unable to send data to the client ("
                                   +:+ ec_message error +:+ "). Connection dropped.")]
             else []) w).
Proof.
  unfold complete_request. step_m. destruct (failed error); step_m.
  - tidy. reflexivity.
  - reflexivity.
Qed.

(** C8, as the code has it: when an operation completes with an error,
    the bound member function leaves the session as it is, sends no
    reply, issues no read and no write and executes no action; for a
    failed write it logs one line with the message of the error. *)
Theorem failed_operation_ends_the_session
    (cb : callback) (ec : error_code) (k : nat) (w : world) :
  failed ec = true ->
  exists w',
    bound cb ec k w = (inr tt, w')
    /\ self w' = self w
    /\ writes (since w w') = []
    /\ reads (since w w') = []
    /\ executions (since w w') = []
    /\ (cb = cb_complete_request ->
        logged (since w w')
        = [(sev_info, " -- unable to send data to the client ("
                        +:+ ec_message ec +:+ "). Connection dropped.")]).
Proof.
  intros F. destruct cb; cbn [bound].
  - eexists. split; [apply (read_request_body_failed _ _ _ F)|].
    unfold add_effects. rewrite since_extended. repeat split; discriminate.
  - eexists. split; [apply (dispatch_request_failed _ _ _ F)|].
    unfold add_effects. rewrite since_extended. repeat split; discriminate.
  - eexists. split; [apply complete_request_eq|].
    unfold add_effects. rewrite since_extended, F. repeat split; reflexivity.
Qed.

(** ** Sequencing *)

Lemma phases_app (ph : phase) (l k : list event) :
  phases ph (l ++ k)
  = match phases ph l with Some ph' => phases ph' k | None => None end.
Proof.
  revert ph; induction l as [|e l IH]; intros ph; simpl; [reflexivity|].
  destruct (phase_step ph e); [apply IH | reflexivity].
Qed.

(** Every completion handler runs to its end without an exception,
    leaves the heap alone, and hands at most the next operation of the
    sequence to the reactor. *)
Lemma callback_progress (cb : callback) (ec : error_code) (k : nat) (w : world) :
  exists p new ph,
    bound cb ec k w = (inr tt, with_self p (add_effects new w))
    /\ phases (after_completion cb) new = Some ph
    /\ in_flight ph (filter is_io new).
Proof.
  destruct cb; cbn [bound after_completion].
  - destruct (failed ec) eqn:F.
    { do 3 eexists. split; [rewrite (read_request_body_failed _ _ _ F); reflexivity|].
      split; reflexivity. }
    destruct (lexical_cast (raw_request_size (self w))) as [e|n] eqn:L.
    { do 3 eexists. split; [apply (read_request_body_bad_cast _ _ _ _ F L)|].
      split; [reflexivity|]. cbn. eauto. }
    destruct (REQUEST_HEADER_MAX_SIZE <? n)%N eqn:G.
    { do 3 eexists. split; [apply (read_request_body_too_large _ _ _ _ F L G)|].
      split; [reflexivity|]. cbn. eauto. }
    do 3 eexists. split; [apply (read_request_body_accepted _ _ _ _ F L G)|].
    split; [reflexivity|]. cbn. eauto.
  - destruct (failed ec) eqn:F.
    { do 3 eexists. split; [rewrite (dispatch_request_failed _ _ _ F); reflexivity|].
      split; reflexivity. }
    destruct (peek_request_name (request_body (self w))) as [e|name] eqn:P.
    { do 3 eexists. split; [apply (dispatch_request_no_name _ _ _ _ F P)|].
      destruct e; (split; [reflexivity|]); cbn; eauto. }
    destruct (resolve (heap w) (action_factory (self w)) name) as [info|] eqn:R.
    2:{ do 3 eexists. split; [apply (dispatch_request_unknown _ _ _ _ F P R)|].
        split; [reflexivity|]. cbn. eauto. }
    destruct (read (request_body (self w)) (info_validator info)) as [cfg [e|]] eqn:V.
    { do 3 eexists. split; [apply (dispatch_request_rejected _ _ _ _ _ _ _ F P R V)|].
      destruct e; (split; [reflexivity|]); cbn; eauto. }
    destruct (execute (info_action info) (received cfg (self w))) as [r| |e] eqn:X.
    + do 3 eexists. split; [apply (dispatch_request_validated _ _ _ _ _ _ F P R V)|].
      unfold action_effects. rewrite X. split; [reflexivity|]. cbn. eauto.
    + do 3 eexists. split; [apply (dispatch_request_validated _ _ _ _ _ _ F P R V)|].
      unfold action_effects. rewrite X. split; reflexivity.
    + do 3 eexists. split; [apply (dispatch_request_validated _ _ _ _ _ _ F P R V)|].
      unfold action_effects. rewrite X.
      destruct e; (split; [reflexivity|]); cbn; eauto.
  - do 3 eexists. split; [rewrite complete_request_eq; reflexivity|].
    destruct (failed ec); split; reflexivity.
Qed.

Lemma invoke_callback (cb : callback) (ec : error_code) (k : nat) (w : world)
    (ph : phase) :
  phases Idle (effects w) = Some ph ->
  phase_step ph (Completion cb ec) = Some (after_completion cb) ->
  exists ph',
    in_phase ph' (invoke (emit (Completion cb ec);; bound cb ec k) [] w)
    /\ heap (sys_world (invoke (emit (Completion cb ec);; bound cb ec k) [] w)) = heap w.
Proof.
  intros Hph Hstep.
  destruct (callback_progress cb ec k (add_effects [Completion cb ec] w))
    as (p & new & ph' & E & Hnew & Hfl).
  unfold add_effects, with_self in E. cbn [self heap effects] in E.
  exists ph'. unfold invoke, in_phase. step_m. rewrite E. cbn [fst snd].
  unfold with_self, add_effects. cbn [sys_world outstanding self heap effects].
  rewrite <- app_assoc, drop_app_length. cbn [app].
  repeat split.
  - rewrite phases_app, Hph. cbn [phases]. rewrite Hstep. exact Hnew.
  - exact Hfl.
Qed.

Lemma complete_in_phase (i : nat) (ec : error_code) (data : string)
    (s s' : system) (ph : phase) :
  in_phase ph s ->
  complete i ec data s = Some s' ->
  (exists ph', in_phase ph' s') /\ heap (sys_world s') = heap (sys_world s).
Proof.
  intros [Hph Hfl] C. unfold complete in C.
  destruct ph; cbn [in_flight] in Hfl;
    try (rewrite Hfl in C; discriminate C);
    [destruct Hfl as (first & len & Hfl)
    |destruct Hfl as (first & len & Hfl)
    |destruct Hfl as (bufs & Hfl)];
    rewrite Hfl in C; destruct i as [|i]; try discriminate C;
    cbn [lookup list_lookup delete list_delete] in C.
  - destruct (_ && _); [|discriminate C]. injection C as <-.
    destruct (invoke_callback cb_read_request_body ec (String.length data)
                (store buf_raw_request_size first data (sys_world s)) _ Hph eq_refl)
      as (ph' & I & Hh).
    split; [eauto | exact Hh].
  - destruct (_ && _); [|discriminate C]. injection C as <-.
    destruct (invoke_callback cb_dispatch_request ec (String.length data)
                (store buf_request_body first data (sys_world s)) _ Hph eq_refl)
      as (ph' & I & Hh).
    split; [eauto | exact Hh].
  - injection C as <-.
    destruct (invoke_callback cb_complete_request ec (String.length data)
                (sys_world s) _ Hph eq_refl) as (ph' & I & Hh).
    split; [eauto | exact Hh].
Qed.

Lemma run_in_phase (cs : list (nat * error_code * string)) (s s' : system) (ph : phase) :
  in_phase ph s ->
  run cs s = Some s' ->
  (exists ph', in_phase ph' s') /\ heap (sys_world s') = heap (sys_world s).
Proof.
  revert s ph; induction cs as [|[[i ec] data] cs IH]; intros s ph I R; cbn [run] in R.
  - injection R as <-. eauto.
  - destruct (complete i ec data s) as [s1|] eqn:C; [|discriminate R].
    destruct (complete_in_phase _ _ _ _ _ _ I C) as [[ph1 I1] H1].
    destruct (IH _ _ I1 R) as [I' H']. split; [exact I' | congruence].
Qed.

Lemma start_in_phase (client : connection_ptr) (w : world) :
  effects w = [] ->
  in_phase AwaitingHeader (start client w) /\ heap (sys_world (start client w)) = heap w.
Proof.
  intros E. unfold start, invoke, in_phase, handle_request. step_m.
  cbn [sys_world outstanding self heap effects].
  rewrite E. cbn. eauto.
Qed.

Lemma in_flight_at_most_one (ph : phase) (ops : list event) :
  in_flight ph ops -> length ops <= 1.
Proof.
  destruct ph; cbn [in_flight]; intros I;
    repeat match goal with I : exists _, _ |- _ => destruct I as [? I] end;
    subst ops; cbn; lia.
Qed.

(** C7: from the call of [handle_request] on, and whatever the reactor
    completes, the operations handed to asio and their completions
    follow the order header read, body read, reply write: each operation
    is issued by the completion handler of the one before, the header
    read is issued once, and at most one operation is outstanding. *)
Theorem phases_in_sequence
    (client : connection_ptr) (w : world)
    (cs : list (nat * error_code * string)) (s : system) :
  effects w = [] ->
  run cs (start client w) = Some s ->
  exists ph,
    phases Idle (effects (sys_world s)) = Some ph
    /\ in_flight ph (outstanding s)
    /\ length (outstanding s) <= 1.
Proof.
  intros E R.
  destruct (start_in_phase client w E) as [I0 _].
  destruct (run_in_phase _ _ _ _ I0 R) as [[ph [Hph Hfl]] _].
  exists ph. repeat split; [exact Hph | exact Hfl | exact (in_flight_at_most_one _ _ Hfl)].
Qed.

(** ** The empty body *)

Lemma append_empty_r (s : string) : s +:+ "" = s.
Proof.
  induction s as [|c s IH]; [reflexivity|].
  change (String c s +:+ "") with (String c (s +:+ "")). rewrite IH. reflexivity.
Qed.

Lemma substring_nothing (n : nat) (s : string) : String.substring n 0 s = "".
Proof.
  revert s; induction n as [|n IH]; intros s; destruct s; simpl; try reflexivity.
  apply IH.
Qed.

Lemma overwrite_whole (data s : string) :
  String.length s = String.length data -> overwrite 0 data s = data.
Proof.
  intros E. unfold overwrite. rewrite E. cbn [Nat.add].
  rewrite Nat.sub_diag, !substring_nothing.
  change ("" +:+ data +:+ "") with (data +:+ ""). apply append_empty_r.
Qed.

Lemma emit_then {A} (e : event) (m : M A) (w : world) :
  (emit e;; m) w = m (add_effects [e] w).
Proof. reflexivity. Qed.

Lemma invoke_eq (m : M unit) (rest : list event) (w : world)
    (r : exn + unit) (p : umcd_protocol) (new : list event) :
  m w = (r, with_self p (add_effects new w)) ->
  invoke m rest w
  = {| sys_world := with_self p (add_effects new w);
       outstanding := rest ++ filter is_io new |}.
Proof.
  intros E. unfold invoke. rewrite E. cbn [snd with_self add_effects effects].
  rewrite drop_app_length. reflexivity.
Qed.

Lemma invoke_completion (cb : callback) (ec : error_code) (k : nat) (rest : list event)
    (w : world) (p : umcd_protocol) (new : list event) :
  bound cb ec k (add_effects [Completion cb ec] w)
  = (inr tt, with_self p (add_effects new (add_effects [Completion cb ec] w))) ->
  invoke (emit (Completion cb ec);; bound cb ec k) rest w
  = {| sys_world := with_self p (add_effects (Completion cb ec :: new) w);
       outstanding := rest ++ filter is_io new |}.
Proof.
  intros E. rewrite (invoke_eq _ rest w (inr tt) p (Completion cb ec :: new)).
  - reflexivity.
  - rewrite emit_then, E. unfold with_self, add_effects. cbn [self heap effects].
    rewrite <- app_assoc. reflexivity.
Qed.

Lemma handle_request_eq (client : connection_ptr) (w : world) :
  handle_request client w
  = (inr tt,
     with_self (set_client_connection (Some client) (self w))
       (add_effects
          [FunctionTracer "handle_request";
           AsyncRead buf_raw_request_size 0 REQUEST_HEADER_SIZE_FIELD_LENGTH
             cb_read_request_body] w)).
Proof. unfold handle_request. step_m. tidy. reflexivity. Qed.

Lemma complete_read (s : system) (buf : buffer_id) (first : nat) (cb : callback)
    (ec : error_code) (data : string) :
  outstanding s = [AsyncRead buf first (String.length data) cb] ->
  complete 0 ec data s
  = Some (invoke (emit (Completion cb ec);; bound cb ec (String.length data)) []
            (store buf first data (sys_world s))).
Proof.
  intros O. unfold complete. rewrite O. cbn [lookup list_lookup delete list_delete].
  rewrite Nat.leb_refl, Nat.eqb_refl, orb_true_r. reflexivity.
Qed.

(** What [dispatch_request] does with a body that was read without error,
    case by case. *)
Lemma dispatch_request_effects (err : error_code) (k : nat) (w : world) :
  failed err = false ->
  effects (snd (dispatch_request err k w))
  = effects w
      ++ FunctionTracer "dispatch_request"
      :: match peek_request_name (request_body (self w)) with
         | inl e => invalid_packet_effects FN_dispatch_request e
         | inr name =>
             match resolve (heap w) (action_factory (self w)) name with
             | None =>
                 Log sev_info (" -- request: " +:+ name)
                   :: invalid_packet_effects FN_dispatch_request
                        (ex_std {| what := unknown_product name |})
             | Some info =>
                 dispatch_prologue name (request_body (self w))
                   ++ match read (request_body (self w)) (info_validator info) with
                      | (_, Some e) => invalid_packet_effects FN_dispatch_request e
                      | (cfg, None) =>
                          Log sev_debug " -- request validated."
                            :: action_effects (info_action info) (received cfg (self w))
                      end
             end
         end
  /\ request_body (self (snd (dispatch_request err k w))) = request_body (self w).
Proof.
  intros F.
  destruct (peek_request_name (request_body (self w))) as [e|name] eqn:P.
  { rewrite (dispatch_request_no_name _ _ _ _ F P). split; reflexivity. }
  destruct (resolve (heap w) (action_factory (self w)) name) as [info|] eqn:R.
  2:{ rewrite (dispatch_request_unknown _ _ _ _ F P R). split; reflexivity. }
  destruct (read (request_body (self w)) (info_validator info)) as [cfg [e|]] eqn:V.
  { rewrite (dispatch_request_rejected _ _ _ _ _ _ _ F P R V). split; reflexivity. }
  rewrite (dispatch_request_validated _ _ _ _ _ _ F P R V). split; reflexivity.
Qed.

(** C9: a header that declares a body of size zero is not refused.  The
    session resizes the body buffer to the empty string, takes the address
    of its first character, which for the empty string is the one of the
    terminator and is defined, and issues a read of zero bytes there,
    which covers no character; no reply is written.  When that read
    completes, [dispatch_request] runs on the empty body: it asks
    [peek_request_name] for the name in the empty string and goes on as
    for any other body. *)
Theorem empty_body_is_dispatched
    (client : connection_ptr) (w : world) (header : string) :
  String.length (raw_request_size (self w)) = REQUEST_HEADER_SIZE_FIELD_LENGTH ->
  String.length header = REQUEST_HEADER_SIZE_FIELD_LENGTH ->
  lexical_cast header = inr 0%N ->
  exists s1 s2,
    complete 0 no_error header (start client w) = Some s1
    /\ since w (sys_world s1)
       = [FunctionTracer "handle_request";
          AsyncRead buf_raw_request_size 0 REQUEST_HEADER_SIZE_FIELD_LENGTH
            cb_read_request_body;
          Completion cb_read_request_body no_error;
          FunctionTracer "read_request_body";
          Log sev_debug (" -- Request of size: " +:+ pretty 0%N);
          Resize 0;
          AsyncRead buf_request_body 0 0 cb_dispatch_request]
    /\ outstanding s1 = [AsyncRead buf_request_body 0 0 cb_dispatch_request]
    /\ request_body (self (sys_world s1)) = ""
    /\ (forall first len cb,
         AsyncRead buf_request_body first len cb ∈ outstanding s1 ->
         first + len <= String.length (request_body (self (sys_world s1))))
    /\ complete 0 no_error "" s1 = Some s2
    /\ sys_world s2
       = snd (dispatch_request no_error 0
                (add_effects [Completion cb_dispatch_request no_error] (sys_world s1)))
    /\ (forall what, Undefined what ∉ since w (sys_world s1))
    /\ subscript (request_body (self (sys_world s1))) 0 = Some 0
    /\ request_body (self (sys_world s2)) = ""
    /\ since w (sys_world s2)
       = since w (sys_world s1)
           ++ Completion cb_dispatch_request no_error
           :: FunctionTracer "dispatch_request"
           :: match peek_request_name "" with
              | inl e => invalid_packet_effects FN_dispatch_request e
              | inr name =>
                  match resolve (heap w) (action_factory (self w)) name with
                  | None =>
                      Log sev_info (" -- request: " +:+ name)
                        :: invalid_packet_effects FN_dispatch_request
                             (ex_std {| what := unknown_product name |})
                  | Some info =>
                      dispatch_prologue name ""
                        ++ match read "" (info_validator info) with
                           | (_, Some e) => invalid_packet_effects FN_dispatch_request e
                           | (cfg, None) =>
                               Log sev_debug " -- request validated."
                                 :: action_effects (info_action info)
                                      (received cfg (self (sys_world s1)))
                           end
                  end
              end.
Proof.
  intros Hraw Hlen L.
  assert (G : (REQUEST_HEADER_MAX_SIZE <? 0)%N = false) by (apply N.ltb_ge; lia).
  unfold start. rewrite (invoke_eq _ _ _ _ _ _ (handle_request_eq client w)).
  match goal with |- context [complete 0 no_error header ?s] => set (s0 := s) end.
  assert (O : outstanding s0
              = [AsyncRead buf_raw_request_size 0 (String.length header)
                   cb_read_request_body])
    by (rewrite Hlen; reflexivity).
  rewrite (complete_read s0 _ _ _ no_error header O).
  set (w0 := store buf_raw_request_size 0 header (sys_world s0)).
  assert (L0 : lexical_cast
                 (raw_request_size
                    (self (add_effects [Completion cb_read_request_body no_error] w0)))
               = inr 0%N).
  { cbn. rewrite overwrite_whole by congruence. exact L. }
  pose proof (read_request_body_accepted no_error (String.length header) _ 0%N
                eq_refl L0 G) as E.
  rewrite (invoke_completion cb_read_request_body no_error _ [] w0 _ _ E).
  match goal with |- context [Some ?s = Some _] => set (s1 := s) end.
  exists s1.
  assert (O1 : outstanding s1
               = [AsyncRead buf_request_body 0 (String.length "") cb_dispatch_request])
    by reflexivity.
  rewrite (complete_read s1 _ _ _ no_error "" O1).
  assert (E1 : effects (sys_world s1)
               = effects w
                   ++ [FunctionTracer "handle_request";
                       AsyncRead buf_raw_request_size 0 REQUEST_HEADER_SIZE_FIELD_LENGTH
                         cb_read_request_body;
                       Completion cb_read_request_body no_error;
                       FunctionTracer "read_request_body";
                       Log sev_debug (" -- Request of size: " +:+ pretty 0%N);
                       Resize 0;
                       AsyncRead buf_request_body 0 0 cb_dispatch_request]).
  { subst s1 w0 s0; cbn; rewrite <- app_assoc; reflexivity. }
  assert (S1 : since w (sys_world s1)
               = [FunctionTracer "handle_request";
                  AsyncRead buf_raw_request_size 0 REQUEST_HEADER_SIZE_FIELD_LENGTH
                    cb_read_request_body;
                  Completion cb_read_request_body no_error;
                  FunctionTracer "read_request_body";
                  Log sev_debug (" -- Request of size: " +:+ pretty 0%N);
                  Resize 0;
                  AsyncRead buf_request_body 0 0 cb_dispatch_request]).
  { apply since_app. exact E1. }
  set (w1 := add_effects [Completion cb_dispatch_request no_error] (sys_world s1)).
  destruct (dispatch_request_effects no_error 0 w1 eq_refl) as [D B].
  eexists. split; [reflexivity|].
  split; [exact S1|].
  split; [reflexivity|].
  split; [reflexivity|].
  split.
  { intros first len cb [E3|E3]%elem_of_cons; [|inversion E3].
    injection E3 as -> -> ->. cbn. lia. }
  split; [reflexivity|].
  split; [reflexivity|].
  split.
  { intros what. rewrite S1. intros I.
    repeat (apply elem_of_cons in I as [I|I]; [discriminate I|]).
    inversion I. }
  split; [reflexivity|].
  split; [exact B|].
  change (sys_world (invoke (emit (Completion cb_dispatch_request no_error);;
                             bound cb_dispatch_request no_error (String.length "")) []
                       (store buf_request_body 0 "" (sys_world s1))))
    with (snd (dispatch_request no_error 0 w1)).
  rewrite S1. unfold since. rewrite D.
  change (effects w1)
    with (effects (sys_world s1) ++ [Completion cb_dispatch_request no_error]).
  rewrite E1, <- !app_assoc, drop_app_length. reflexivity.
Qed.

(** ** The action factory *)

Lemma bound_heap (cb : callback) (ec : error_code) (k : nat) (w : world) :
  heap (snd (bound cb ec k w)) = heap w.
Proof.
  destruct (callback_progress cb ec k w) as (p & new & ph & E & _).
  rewrite E. reflexivity.
Qed.

Lemma complete_heap (i : nat) (ec : error_code) (data : string) (s s' : system) :
  complete i ec data s = Some s' -> heap (sys_world s') = heap (sys_world s).
Proof.
  unfold complete. intros C.
  destruct (outstanding s !! i) as [[]|]; try discriminate C.
  - destruct (_ && _); [|discriminate C]. injection C as <-.
    unfold invoke. cbn [sys_world]. rewrite emit_then, bound_heap. reflexivity.
  - injection C as <-.
    unfold invoke. cbn [sys_world]. rewrite emit_then, bound_heap. reflexivity.
Qed.

Lemma register_request_info_new (a : action) (request_name : string) (w : world) :
  resolve (heap w) (action_factory (self w)) request_name = None ->
  register_request_info a request_name w
  = (inr tt,
     {| self := self w;
        heap := alter (insert request_name (descriptor a request_name))
                  (action_factory (self w)) (heap w);
        effects := effects w |}).
Proof.
  intros R. unfold register_request_info, update_heap. step_m. rewrite R. reflexivity.
Qed.

Lemma umcd_protocol_new_eq (cfg : config) (h : gmap nat action_factory_type) :
  umcd_protocol_new cfg h
  = (default_members cfg (fresh (dom h)),
     alter (insert "request_umc_upload"
              (descriptor request_umc_upload_action "request_umc_upload"))
       (fresh (dom h))
       (alter (insert "request_license"
                 (descriptor request_license_action "request_license"))
          (fresh (dom h))
          (<[fresh (dom h) := ∅]> h))).
Proof.
  unfold umcd_protocol_new. set (l := fresh (dom h)).
  set (w0 := {| self := default_members cfg l; heap := <[l:=∅]> h; effects := [] |}).
  assert (R0 : resolve (heap w0) (action_factory (self w0)) "request_license" = None).
  { unfold resolve. cbn [heap self w0 action_factory default_members].
    rewrite lookup_insert_eq. apply lookup_empty. }
  unfold mbind, M_bind. rewrite (register_request_info_new _ _ _ R0).
  match goal with |- context [register_request_info _ _ ?w] => set (w1 := w) end.
  assert (R1 : resolve (heap w1) (action_factory (self w1)) "request_umc_upload" = None).
  { unfold resolve. cbn [heap self w1 w0 action_factory default_members].
    rewrite lookup_alter_eq, lookup_insert_eq. cbn [fmap option_fmap option_map].
    rewrite lookup_insert_ne by discriminate. apply lookup_empty. }
  rewrite (register_request_info_new _ _ _ R1). reflexivity.
Qed.

(** C10: the constructor allocates a factory of its own and registers
    exactly "request_license" and "request_umc_upload" in it;
    [handle_request], the completion handlers and the reactor leave
    every factory as it is; the copy constructor takes over the pointer
    to the factory and the server configuration, so that both objects
    see the same factory (a kind not yet registered that is registered
    through the copy is found through the original), and it
    default-initialises the connection, the body, the request and the
    reply. *)
Theorem action_factory_is_fixed_and_shared
    (cfg : config) (h : gmap nat action_factory_type) :
  let p := fst (umcd_protocol_new cfg h) in
  let h' := snd (umcd_protocol_new cfg h) in
  (h !! action_factory p = None
   /\ (exists f : gmap string request_info,
         h' !! action_factory p = Some f
         /\ dom f = {[ "request_license"; "request_umc_upload" ]}
         /\ info_action <$> f !! "request_license" = Some request_license_action
         /\ info_action <$> f !! "request_umc_upload" = Some request_umc_upload_action)
   /\ (forall l, l <> action_factory p -> h' !! l = h !! l)
   /\ server_config p = cfg)
  /\ (forall client w, heap (snd (handle_request client w)) = heap w)
  /\ (forall cb ec k w, heap (snd (bound cb ec k w)) = heap w)
  /\ (forall i ec data s s',
        complete i ec data s = Some s' -> heap (sys_world s') = heap (sys_world s))
  /\ (forall q : umcd_protocol,
        action_factory (umcd_protocol_copy q) = action_factory q
        /\ server_config (umcd_protocol_copy q) = server_config q
        /\ client_connection (umcd_protocol_copy q) = client_connection p
        /\ request_body (umcd_protocol_copy q) = request_body p
        /\ request (umcd_protocol_copy q) = request p
        /\ reply (umcd_protocol_copy q) = reply p
        /\ client_connection p = None
        /\ request_body p = ""
        /\ request p = default_request
        /\ reply p = empty_reply)
  /\ (forall (q : umcd_protocol) (w : world) (a : action) (name : string),
        is_Some (heap w !! action_factory q) ->
        resolve (heap w) (action_factory q) name = None ->
        resolve (heap (snd (register_request_info a name
                              (with_self (umcd_protocol_copy q) w))))
          (action_factory q) name
        = Some (descriptor a name)).
Proof.
  cbv zeta. rewrite umcd_protocol_new_eq. cbn [fst snd].
  set (l := fresh (dom h)).
  assert (Hl : h !! l = None) by (apply not_elem_of_dom, is_fresh).
  repeat apply conj.
  - exact Hl.
  - eexists. split.
    + unfold descriptor. rewrite !lookup_alter_eq, lookup_insert_eq. reflexivity.
    + split; [|split].
      * rewrite !dom_insert_L, dom_empty_L. set_solver.
      * rewrite lookup_insert_ne by discriminate. rewrite lookup_insert_eq. reflexivity.
      * rewrite lookup_insert_eq. reflexivity.
  - intros l' Hne. cbn [action_factory default_members] in Hne.
    rewrite !lookup_alter_ne, lookup_insert_ne by congruence. reflexivity.
  - reflexivity.
  - intros client w. rewrite handle_request_eq. reflexivity.
  - apply bound_heap.
  - apply complete_heap.
  - intros q. repeat split.
  - intros q w a name [f Hf] R.
    rewrite (register_request_info_new a name (with_self (umcd_protocol_copy q) w) R).
    unfold resolve.
    cbn [snd heap self with_self umcd_protocol_copy default_members action_factory].
    rewrite lookup_alter_eq, Hf. cbn [fmap option_fmap option_map].
    apply lookup_insert_eq.
Qed.

(** ** Error replies *)

(** C6: an error reply is built from the message of the error condition
    alone.  Whatever the exception that led to it says (its [what], its
    user message, its developer message) and wherever it was caught, the
    reply stored in the session and the buffers written are the same. *)
Theorem error_reply_ignores_diagnostics
    (w : world) (where1 where2 : string)
    (s1 s2 : std_exception) (t1 t2 : twml_exception) :
  let sent m := (reply (self (snd (m w))), writes (since w (snd (m w)))) in
  let expected c :=
    (make_error_reply (condition_message c),
     [to_buffers (make_error_reply (condition_message c))]) in
  sent (async_send_invalid_packet_twml where1 t1) = expected invalid_packet
  /\ sent (async_send_invalid_packet_twml where1 t1)
     = sent (async_send_invalid_packet_twml where2 t2)
  /\ sent (async_send_invalid_packet where1 s1) = expected invalid_packet
  /\ sent (async_send_invalid_packet where1 s1)
     = sent (async_send_invalid_packet where2 s2)
  /\ (forall c, sent (async_send_error c) = expected c).
Proof.
  cbv beta zeta.
  rewrite !async_send_invalid_packet_twml_eq, !async_send_invalid_packet_eq.
  cbn [snd].
  repeat split; try intros c; rewrite ?async_send_error_eq; cbn [snd];
    rewrite !since_extended; reflexivity.
Qed.

End Properties.

(** ** The properties at work on concrete requests *)

Section Examples.
#[local] Existing Instance Demo.collaborators.

Lemma oversized_request_is_refused_witness :
exists w',
  read_request_body (H := Demo.collaborators) no_error 10
    (Demo.with_header "0010000000" Demo.fresh_world) = (inr tt, w')
  /\ reply (self w') = error_reply "The request header is too large."
  /\ writes (since (Demo.with_header "0010000000" Demo.fresh_world) w')
     = [["[error]"; "The request header is too large."]]
  /\ resizes (since (Demo.with_header "0010000000" Demo.fresh_world) w') = []
  /\ reads (since (Demo.with_header "0010000000" Demo.fresh_world) w') = []
  /\ request_body (self w') = "".
Proof.
refine (oversized_request_is_refused (H := Demo.collaborators)
         (Demo.with_header "0010000000" Demo.fresh_world) no_error 10 10000000 _ _ _).
- reflexivity.
- vm_compute. reflexivity.
- reflexivity.
Defined.

Lemma unparsable_header_is_invalid_packet_witness :
exists w',
  read_request_body (H := Demo.collaborators) no_error 10
    (Demo.with_header "7         " Demo.fresh_world) = (inr tt, w')
  /\ reply (self w') = error_reply "The packet is invalid."
  /\ writes (since (Demo.with_header "7         " Demo.fresh_world) w')
     = [["[error]"; "The packet is invalid."]]
  /\ resizes (since (Demo.with_header "7         " Demo.fresh_world) w') = []
  /\ reads (since (Demo.with_header "7         " Demo.fresh_world) w') = []
  /\ request_body (self w') = "".
Proof.
refine (unparsable_header_is_invalid_packet (H := Demo.collaborators)
         (Demo.with_header "7         " Demo.fresh_world) no_error 10
         Demo.bad_lexical_cast _ _).
- reflexivity.
- vm_compute. reflexivity.
Defined.

Lemma valid_request_runs_its_action_once_witness :
exists w' after,
  dispatch_request no_error 17 (Demo.with_body "request_license x" Demo.fresh_world)
  = (inr tt, w')
  /\ since (Demo.with_body "request_license x" Demo.fresh_world) w'
     = FunctionTracer "dispatch_request"
         :: dispatch_prologue "request_license" "request_license x"
         ++ [Log sev_debug " -- request validated.";
             Execute request_license_action (Config [("payload", "x")] [])]
         ++ after
  /\ executions after = []
  /\ executions (since (Demo.with_body "request_license x" Demo.fresh_world) w')
     = [request_license_action]
  /\ request_metadata (request (self w')) = Config [("payload", "x")] [].
Proof.
refine (valid_request_runs_its_action_once
         (Demo.with_body "request_license x" Demo.fresh_world) no_error 17
         "request_license" Demo.factory
         (descriptor request_license_action "request_license")
         (Config [("payload", "x")] []) _ _ _ _ _).
- reflexivity.
- vm_compute. reflexivity.
- vm_compute. reflexivity.
- vm_compute. reflexivity.
- vm_compute. reflexivity.
Defined.

Lemma unknown_kind_is_invalid_packet_witness :
exists w',
  dispatch_request no_error 17 (Demo.with_body "Request_License x" Demo.fresh_world)
  = (inr tt, w')
  /\ reply (self w') = error_reply "The packet is invalid."
  /\ writes (since (Demo.with_body "Request_License x" Demo.fresh_world) w')
     = [["[error]"; "The packet is invalid."]]
  /\ executions (since (Demo.with_body "Request_License x" Demo.fresh_world) w') = [].
Proof.
refine (unknown_kind_is_invalid_packet
         (Demo.with_body "Request_License x" Demo.fresh_world) no_error 17
         "Request_License" Demo.factory _ _ _ _).
- reflexivity.
- vm_compute. reflexivity.
- vm_compute. reflexivity.
- intros registered D. unfold Demo.factory in D.
  rewrite !dom_insert_L, dom_empty_L in D.
  apply elem_of_union in D as [D|D]; [|apply elem_of_union in D as [D|D]].
  + apply elem_of_singleton in D. subst registered. discriminate.
  + apply elem_of_singleton in D. subst registered. discriminate.
  + apply elem_of_empty in D. destruct D.
Defined.

(** C5, as stated, fails: the validator rejects the body "request_license"
  with a user message of its own, and the reply written is the fixed
  invalid_packet reply, not a reply made of that user message; a second
  body with another user message gets the very same bytes. *)
Lemma validation_message_is_not_sent :
let w1 := Demo.with_body "request_license" Demo.fresh_world in
let w2 := Demo.with_body "request_umc_upload" Demo.fresh_world in
read (request_body (self w1)) {| schema_kind := "request_license" |}
= (empty_config,
   Some (ex_twml
           {| user_message := "The request_license request is incomplete.";
              dev_message := "schema request_license: mandatory key payload is missing" |}))
/\ read (request_body (self w2)) {| schema_kind := "request_umc_upload" |}
   = (empty_config,
      Some (ex_twml
              {| user_message := "The request_umc_upload request is incomplete.";
                 dev_message :=
                   "schema request_umc_upload: mandatory key payload is missing" |}))
/\ writes (since w1 (snd (dispatch_request no_error 15 w1)))
   = [["[error]"; "The packet is invalid."]]
/\ writes (since w1 (snd (dispatch_request no_error 15 w1)))
   <> [to_buffers (make_error_reply "The request_license request is incomplete.")]
/\ reply (self (snd (dispatch_request no_error 15 w1)))
   <> make_error_reply "The request_license request is incomplete."
/\ writes (since w2 (snd (dispatch_request no_error 18 w2)))
   = writes (since w1 (snd (dispatch_request no_error 15 w1))).
Proof.
vm_compute. repeat split; intros E; discriminate E.
Qed.

Lemma rejected_request_is_invalid_packet_witness :
exists w',
  dispatch_request no_error 15 (Demo.with_body "request_license" Demo.fresh_world)
  = (inr tt, w')
  /\ reply (self w') = error_reply "The packet is invalid."
  /\ writes (since (Demo.with_body "request_license" Demo.fresh_world) w')
     = [["[error]"; "The packet is invalid."]]
  /\ executions (since (Demo.with_body "request_license" Demo.fresh_world) w') = []
  /\ (forall t,
        ex_twml {| user_message := "The request_license request is incomplete.";
                   dev_message :=
                     "schema request_license: mandatory key payload is missing" |}
        = ex_twml t ->
        logged (since (Demo.with_body "request_license" Demo.fresh_world) w')
        = [(sev_info, " -- request: " +:+ "request_license");
           (sev_info, " -- request:" +:+ String (Ascii.ascii_of_nat 10) "request_license");
           (sev_error, " -- invalid request at " +:+ FN_dispatch_request
                         +:+ " (user message=" +:+ user_message t
                         +:+ " ; dev message=" +:+ dev_message t +:+ ")")]).
Proof.
refine (rejected_request_is_invalid_packet
         (Demo.with_body "request_license" Demo.fresh_world) no_error 15
         "request_license" Demo.factory
         (descriptor request_license_action "request_license") empty_config
         (ex_twml {| user_message := "The request_license request is incomplete.";
                     dev_message :=
                       "schema request_license: mandatory key payload is missing" |})
         _ _ _ _ _).
- reflexivity.
- vm_compute. reflexivity.
- vm_compute. reflexivity.
- vm_compute. reflexivity.
- vm_compute. reflexivity.
Defined.

(** C8, as stated, fails: when the header read ends with an error the
  session logs nothing (the function tracer is its only effect), and
  likewise for the body read. *)
Lemma read_failure_is_not_logged :
failed Demo.eof = true
/\ since Demo.fresh_world (snd (read_request_body Demo.eof 0 Demo.fresh_world))
   = [FunctionTracer "read_request_body"]
/\ logged (since Demo.fresh_world (snd (read_request_body Demo.eof 0 Demo.fresh_world)))
   = []
/\ since Demo.fresh_world (snd (dispatch_request Demo.eof 0 Demo.fresh_world))
   = [FunctionTracer "dispatch_request"]
/\ logged (since Demo.fresh_world (snd (dispatch_request Demo.eof 0 Demo.fresh_world)))
   = [].
Proof. vm_compute. repeat split. Qed.

Lemma failed_operation_ends_the_session_witness :
exists w',
  bound cb_complete_request Demo.eof 0 Demo.fresh_world = (inr tt, w')
  /\ self w' = self Demo.fresh_world
  /\ writes (since Demo.fresh_world w') = []
  /\ reads (since Demo.fresh_world w') = []
  /\ executions (since Demo.fresh_world w') = []
  /\ (cb_complete_request = cb_complete_request ->
      logged (since Demo.fresh_world w')
      = [(sev_info, " -- unable to send data to the client ("
                      +:+ ec_message Demo.eof +:+ "). Connection dropped.")]).
Proof.
refine (failed_operation_ends_the_session cb_complete_request Demo.eof 0 Demo.fresh_world _).
reflexivity.
Defined.

Lemma phases_in_sequence_witness :
exists ph,
  phases Idle (effects (sys_world Demo.served)) = Some ph
  /\ in_flight ph (outstanding Demo.served)
  /\ length (outstanding Demo.served) <= 1.
Proof.
refine (phases_in_sequence 1 Demo.fresh_world Demo.cycle Demo.served _ _).
- reflexivity.
- vm_compute. reflexivity.
Defined.

Lemma empty_body_is_dispatched_witness :
  exists s1 s2,
    complete 0 no_error "0000000000" (start 1 Demo.fresh_world) = Some s1
    /\ since Demo.fresh_world (sys_world s1)
       = [FunctionTracer "handle_request";
          AsyncRead buf_raw_request_size 0 REQUEST_HEADER_SIZE_FIELD_LENGTH
            cb_read_request_body;
          Completion cb_read_request_body no_error;
          FunctionTracer "read_request_body";
          Log sev_debug (" -- Request of size: " +:+ pretty 0%N);
          Resize 0;
          AsyncRead buf_request_body 0 0 cb_dispatch_request]
    /\ outstanding s1 = [AsyncRead buf_request_body 0 0 cb_dispatch_request]
    /\ request_body (self (sys_world s1)) = ""
    /\ (forall first len cb,
         AsyncRead buf_request_body first len cb ∈ outstanding s1 ->
         first + len <= String.length (request_body (self (sys_world s1))))
    /\ complete 0 no_error "" s1 = Some s2
    /\ sys_world s2
       = snd (dispatch_request no_error 0
                (add_effects [Completion cb_dispatch_request no_error] (sys_world s1)))
    /\ (forall what, Undefined what ∉ since Demo.fresh_world (sys_world s1))
    /\ subscript (request_body (self (sys_world s1))) 0 = Some 0
    /\ request_body (self (sys_world s2)) = ""
    /\ since Demo.fresh_world (sys_world s2)
       = since Demo.fresh_world (sys_world s1)
           ++ Completion cb_dispatch_request no_error
           :: FunctionTracer "dispatch_request"
           :: invalid_packet_effects FN_dispatch_request
                (ex_std {| what := "request name not found" |}).
Proof.
  refine (empty_body_is_dispatched 1 Demo.fresh_world "0000000000" _ _ _).
  - vm_compute. reflexivity.
  - reflexivity.
  - vm_compute. reflexivity.
Defined.

End Examples.

(** * Further properties of the session *)

Section Further.
Context `{Collaborators}.

(** What every completion handler keeps and what it may add. *)
Lemma handler_facts (cb : callback) (ec : error_code) (k : nat) (w : world) :
  exists p new,
    bound cb ec k w = (inr tt, with_self p (add_effects new w))
    /\ server_config p = server_config (self w)
    /\ action_factory p = action_factory (self w)
    /\ client_connection p = client_connection (self w)
    /\ raw_request_size p = raw_request_size (self w)
    /\ (cb <> cb_read_request_body -> request_body p = request_body (self w))
    /\ ((writes new = [] /\ reply p = reply (self w))
        \/ writes new = [to_buffers (reply p)])
    /\ length (executions new) <= match cb with cb_dispatch_request => 1 | _ => 0 end
    /\ Forall within_limit new.
Proof.
  destruct cb; cbn [bound].
  - destruct (failed ec) eqn:F.
    { exists (self w). eexists.
      split; [rewrite (read_request_body_failed _ _ _ F); reflexivity|].
      repeat split; auto. repeat constructor. }
    destruct (lexical_cast (raw_request_size (self w))) as [e|n] eqn:L.
    { do 2 eexists. split; [apply (read_request_body_bad_cast _ _ _ _ F L)|].
      repeat split; auto; try discriminate. repeat constructor. }
    destruct (REQUEST_HEADER_MAX_SIZE <? n)%N eqn:G.
    { do 2 eexists. split; [apply (read_request_body_too_large _ _ _ _ F L G)|].
      repeat split; auto; try discriminate. repeat constructor. }
    do 2 eexists. split; [apply (read_request_body_accepted _ _ _ _ F L G)|].
    apply N.ltb_ge in G.
    repeat split; auto; try congruence.
    repeat (apply Forall_cons; split); try apply Forall_nil;
      cbn; rewrite ?N2Nat.id; auto.
  - destruct (failed ec) eqn:F.
    { exists (self w). eexists.
      split; [rewrite (dispatch_request_failed _ _ _ F); reflexivity|].
      repeat split; auto. repeat constructor. }
    destruct (peek_request_name (request_body (self w))) as [e|name] eqn:P.
    { do 2 eexists. split; [apply (dispatch_request_no_name _ _ _ _ F P)|].
      destruct e; repeat split; auto; cbn; try lia; repeat constructor. }
    destruct (resolve (heap w) (action_factory (self w)) name) as [info|] eqn:R.
    2:{ do 2 eexists. split; [apply (dispatch_request_unknown _ _ _ _ F P R)|].
        repeat split; auto; cbn; try lia; repeat constructor. }
    destruct (read (request_body (self w)) (info_validator info)) as [cfg [e|]] eqn:V.
    { do 2 eexists. split; [apply (dispatch_request_rejected _ _ _ _ _ _ _ F P R V)|].
      destruct e; repeat split; auto; cbn; try lia; repeat constructor. }
    do 2 eexists. split; [apply (dispatch_request_validated _ _ _ _ _ _ F P R V)|].
    unfold action_effects, action_reply.
    destruct (execute (info_action info) (received cfg (self w))) as [r| |[e|e]];
      repeat split; auto; cbn; try lia; repeat constructor.
  - exists (self w). eexists. split; [rewrite complete_request_eq; reflexivity|].
    destruct (failed ec); repeat split; auto; repeat constructor.
Qed.

(** X2: a header that parses to a size of at most
    [REQUEST_HEADER_MAX_SIZE], that size included, is accepted: the body
    buffer gets exactly that size, keeping what it held, and the one
    operation issued is the read of exactly that many bytes into the body
    from its first character on, with [dispatch_request] bound to its
    completion; no reply is written. *)
Theorem accepted_header_reads_its_size
    (w : world) (error : error_code) (k : nat) (request_size : N) :
  failed error = false ->
  lexical_cast (raw_request_size (self w)) = inr request_size ->
  (request_size <= REQUEST_HEADER_MAX_SIZE)%N ->
  exists w',
    read_request_body error k w = (inr tt, w')
    /\ request_body (self w') = resize (N.to_nat request_size) (request_body (self w))
    /\ String.length (request_body (self w')) = N.to_nat request_size
    /\ since w w'
       = [FunctionTracer "read_request_body";
          Log sev_debug (" -- Request of size: " +:+ pretty request_size);
          Resize request_size;
          AsyncRead buf_request_body 0 (N.to_nat request_size) cb_dispatch_request]
    /\ resizes (since w w') = [request_size]
    /\ reads (since w w') = [(buf_request_body, N.to_nat request_size)]
    /\ writes (since w w') = []
    /\ reply (self w') = reply (self w).
Proof.
  intros F L G. apply N.ltb_ge in G.
  eexists. split; [apply (read_request_body_accepted _ _ _ _ F L G)|].
  rewrite since_add_effects. cbn [self with_self request_body set_request_body].
  rewrite resize_length. repeat split.
Qed.

(** X3: a body from which no request name can be read gets the
    invalid_packet reply: no action is executed, the request of the
    session is left as it was, and the only log line is the one of the
    exception (the body itself is not logged). *)
Theorem unnamed_body_is_invalid_packet
    (w : world) (err : error_code) (k : nat) (e : exn) :
  failed err = false ->
  peek_request_name (request_body (self w)) = inl e ->
  exists w',
    dispatch_request err k w = (inr tt, w')
    /\ reply (self w') = make_error_reply (condition_message invalid_packet)
    /\ writes (since w w')
       = [to_buffers (make_error_reply (condition_message invalid_packet))]
    /\ executions (since w w') = []
    /\ request (self w') = request (self w)
    /\ since w w'
       = FunctionTracer "dispatch_request" :: invalid_packet_effects FN_dispatch_request e.
Proof.
  intros F P.
  eexists. split; [apply (dispatch_request_no_name _ _ _ _ F P)|].
  rewrite since_add_effects. destruct e; repeat split.
Qed.

(** X4: an action that raises is executed once and its error is reported
    to the client as invalid_packet, like a malformed request. *)
Theorem raising_action_is_invalid_packet
    (w : world) (err : error_code) (k : nat) (name : string)
    (info : request_info) (cfg : config) (e : exn) :
  failed err = false ->
  peek_request_name (request_body (self w)) = inr name ->
  resolve (heap w) (action_factory (self w)) name = Some info ->
  read (request_body (self w)) (info_validator info) = (cfg, None) ->
  execute (info_action info) (received cfg (self w)) = act_raised e ->
  exists w',
    dispatch_request err k w = (inr tt, w')
    /\ executions (since w w') = [info_action info]
    /\ reply (self w') = make_error_reply (condition_message invalid_packet)
    /\ writes (since w w')
       = [to_buffers (make_error_reply (condition_message invalid_packet))]
    /\ since w w'
       = FunctionTracer "dispatch_request"
           :: dispatch_prologue name (request_body (self w))
           ++ [Log sev_debug " -- request validated."; Execute (info_action info) cfg]
           ++ invalid_packet_effects FN_dispatch_request e.
Proof.
  intros F P R V X.
  eexists. split; [apply (dispatch_request_validated _ _ _ _ _ _ F P R V)|].
  rewrite since_add_effects. unfold action_effects, action_reply. rewrite X.
  destruct e; repeat split.
Qed.

(** X5: a completion handler changes the reply of the session only when
    it also writes it: either it writes nothing and the reply is as
    before, or it issues one write, of the buffers of the reply that the
    session holds when the handler returns. *)
Theorem written_reply_is_the_stored_reply
    (cb : callback) (ec : error_code) (k : nat) (w : world) :
  (writes (since w (snd (bound cb ec k w))) = []
   /\ reply (self (snd (bound cb ec k w))) = reply (self w))
  \/ writes (since w (snd (bound cb ec k w)))
     = [to_buffers (reply (self (snd (bound cb ec k w))))].
Proof.
  destruct (handler_facts cb ec k w) as (p & new & E & _ & _ & _ & _ & _ & W & _).
  rewrite E. cbn [snd]. rewrite since_add_effects. exact W.
Qed.

(** X15: no frame that arrived is dropped in silence.  A header read
    without error is followed by exactly one operation, the body read or
    an error reply; a body read without error leads to the execution of an
    action or to the invalid_packet reply. *)
Theorem every_frame_is_answered (ec : error_code) (k : nat) (w : world) :
  failed ec = false ->
  length (reads (since w (snd (read_request_body ec k w))))
  + length (writes (since w (snd (read_request_body ec k w)))) = 1
  /\ (executions (since w (snd (dispatch_request ec k w))) <> []
      \/ writes (since w (snd (dispatch_request ec k w)))
         = [to_buffers (make_error_reply (condition_message invalid_packet))]).
Proof.
  intros F. split.
  - destruct (lexical_cast (raw_request_size (self w))) as [e|n] eqn:L.
    { rewrite (read_request_body_bad_cast _ _ _ _ F L). cbn [snd].
      rewrite since_add_effects. reflexivity. }
    destruct (REQUEST_HEADER_MAX_SIZE <? n)%N eqn:G.
    { rewrite (read_request_body_too_large _ _ _ _ F L G). cbn [snd].
      rewrite since_add_effects. reflexivity. }
    rewrite (read_request_body_accepted _ _ _ _ F L G). cbn [snd].
    rewrite since_add_effects. reflexivity.
  - destruct (peek_request_name (request_body (self w))) as [e|name] eqn:P.
    { rewrite (dispatch_request_no_name _ _ _ _ F P). cbn [snd].
      rewrite since_add_effects. right. destruct e; reflexivity. }
    destruct (resolve (heap w) (action_factory (self w)) name) as [info|] eqn:R.
    2:{ rewrite (dispatch_request_unknown _ _ _ _ F P R). cbn [snd].
        rewrite since_add_effects. right. reflexivity. }
    destruct (read (request_body (self w)) (info_validator info)) as [cfg [e|]] eqn:V.
    { rewrite (dispatch_request_rejected _ _ _ _ _ _ _ F P R V). cbn [snd].
      rewrite since_add_effects. right. destruct e; reflexivity. }
    rewrite (dispatch_request_validated _ _ _ _ _ _ F P R V). cbn [snd].
    rewrite since_add_effects. left. cbn. discriminate.
Qed.

(** ** Whole sessions *)

Lemma run_preserves (I : world -> Prop) :
  (forall buf first data w, I w -> I (store buf first data w)) ->
  (forall cb ec k w, I w -> I (snd (bound cb ec k (add_effects [Completion cb ec] w)))) ->
  forall cs s s', I (sys_world s) -> run cs s = Some s' -> I (sys_world s').
Proof.
  intros Hstore Hstep cs. induction cs as [|[[i ec] data] cs IH]; intros s s' Hs R;
    cbn [run] in R.
  - injection R as <-. exact Hs.
  - destruct (complete i ec data s) as [s1|] eqn:C; [|discriminate R].
    apply (IH s1 s'); [|exact R].
    unfold complete in C.
    destruct (outstanding s !! i) as [[]|]; try discriminate C.
    + destruct (_ && _); [|discriminate C]. injection C as <-.
      unfold invoke. cbn [sys_world]. rewrite emit_then. apply Hstep, Hstore, Hs.
    + injection C as <-.
      unfold invoke. cbn [sys_world]. rewrite emit_then. apply Hstep, Hs.
Qed.

Lemma start_world (client : connection_ptr) (w : world) :
  sys_world (start client w)
  = with_self (set_client_connection (Some client) (self w))
      (add_effects
         [FunctionTracer "handle_request";
          AsyncRead buf_raw_request_size 0 REQUEST_HEADER_SIZE_FIELD_LENGTH
            cb_read_request_body] w).
Proof. unfold start, invoke. rewrite handle_request_eq. reflexivity. Qed.

(** X6: through a whole session the server configuration and the pointer
    to the action factory stay those of the protocol object, the
    connection stays the one given to [handle_request], and the heap of
    factories is not written. *)
Theorem session_keeps_its_configuration
    (client : connection_ptr) (w : world)
    (cs : list (nat * error_code * string)) (s : system) :
  run cs (start client w) = Some s ->
  server_config (self (sys_world s)) = server_config (self w)
  /\ action_factory (self (sys_world s)) = action_factory (self w)
  /\ client_connection (self (sys_world s)) = Some client
  /\ heap (sys_world s) = heap w.
Proof.
  apply (run_preserves
           (fun w0 => server_config (self w0) = server_config (self w)
                      /\ action_factory (self w0) = action_factory (self w)
                      /\ client_connection (self w0) = Some client
                      /\ heap w0 = heap w)).
  - intros [] first data w0 I; exact I.
  - intros cb ec k w0 (I1 & I2 & I3 & I4).
    destruct (handler_facts cb ec k (add_effects [Completion cb ec] w0))
      as (p & new & E & F1 & F2 & F3 & _).
    rewrite E. cbn [snd self heap with_self add_effects] in *.
    repeat split; congruence.
  - rewrite start_world. repeat split.
Qed.

(** X9: in a whole session the frame reader never asks for more than the
    protocol allows: the header read covers the header array, every body
    read has at most [REQUEST_HEADER_MAX_SIZE] bytes, and the body buffer
    is never resized beyond that. *)
Theorem session_reads_within_limit
    (client : connection_ptr) (w : world)
    (cs : list (nat * error_code * string)) (s : system) :
  effects w = [] ->
  run cs (start client w) = Some s ->
  Forall within_limit (effects (sys_world s)).
Proof.
  intros E0.
  apply (run_preserves (fun w0 => Forall within_limit (effects w0))).
  - intros [] first data w0 I; exact I.
  - intros cb ec k w0 I.
    destruct (handler_facts cb ec k (add_effects [Completion cb ec] w0))
      as (p & new & E & _ & _ & _ & _ & _ & _ & _ & L).
    rewrite E. cbn [snd effects with_self add_effects].
    repeat (apply Forall_app; split); auto. repeat constructor.
  - rewrite start_world. cbn [effects with_self add_effects]. rewrite E0.
    repeat (apply Forall_cons; split); try apply Forall_nil; cbn; auto.
Qed.

(** The phases only move forward, and they count the reply write and
    the run of [dispatch_request]. *)
Lemma phase_step_measures (ph ph' : phase) (e : event) :
  phase_step ph e = Some ph' ->
  rank ph <= rank ph'
  /\ length (writes [e]) + written ph = written ph'
  /\ length (dispatches [e]) + dispatched ph <= dispatched ph'.
Proof.
  destruct e as [fn|sev text|n|buf first len cb|bufs cb|a m|cb ec|what]; cbn [phase_step];
    try destruct buf; try destruct cb; destruct ph; intros E;
    try discriminate E; injection E as <-; cbn; lia.
Qed.

Lemma phases_measures (evs : list event) (ph ph' : phase) :
  phases ph evs = Some ph' ->
  rank ph <= rank ph'
  /\ length (writes evs) + written ph = written ph'
  /\ length (dispatches evs) + dispatched ph <= dispatched ph'.
Proof.
  revert ph; induction evs as [|e evs IH]; intros ph E; cbn [phases] in E.
  - injection E as <-. cbn. lia.
  - destruct (phase_step ph e) as [ph1|] eqn:S; [|discriminate E].
    destruct (phase_step_measures _ _ _ S) as (R1 & W1 & D1).
    destruct (IH _ E) as (R2 & W2 & D2).
    change (e :: evs) with ([e] ++ evs).
    unfold writes, dispatches in *. rewrite !omap_app, !length_app. lia.
Qed.

Lemma invoke_callback_rank (cb : callback) (ec : error_code) (k : nat) (w : world)
    (ph : phase) :
  phases Idle (effects w) = Some ph ->
  phase_step ph (Completion cb ec) = Some (after_completion cb) ->
  exists ph',
    in_phase ph' (invoke (emit (Completion cb ec);; bound cb ec k) [] w)
    /\ rank (after_completion cb) <= rank ph'.
Proof.
  intros Hph Hstep.
  destruct (callback_progress cb ec k (add_effects [Completion cb ec] w))
    as (p & new & ph' & E & Hnew & Hfl).
  exists ph'. rewrite (invoke_completion cb ec k [] w p new E).
  split; [split|].
  - cbn [sys_world effects with_self add_effects].
    rewrite phases_app, Hph. cbn [phases]. rewrite Hstep. exact Hnew.
  - exact Hfl.
  - apply (phases_measures _ _ _ Hnew).
Qed.

Lemma complete_uses_one (i : nat) (ec : error_code) (data : string)
    (s s' : system) (ph : phase) :
  in_phase ph s ->
  complete i ec data s = Some s' ->
  exists ph', in_phase ph' s' /\ remaining ph' < remaining ph.
Proof.
  intros [Hph Hfl] C. unfold complete in C.
  destruct ph; cbn [in_flight] in Hfl;
    try (rewrite Hfl in C; discriminate C);
    [destruct Hfl as (first & len & Hfl)
    |destruct Hfl as (first & len & Hfl)
    |destruct Hfl as (bufs & Hfl)];
    rewrite Hfl in C; destruct i as [|i]; try discriminate C;
    cbn [lookup list_lookup delete list_delete] in C.
  - destruct (_ && _); [|discriminate C]. injection C as <-.
    destruct (invoke_callback_rank cb_read_request_body ec (String.length data)
                (store buf_raw_request_size first data (sys_world s)) _ Hph eq_refl)
      as (ph' & I & R).
    exists ph'. split; [exact I|]. destruct ph'; cbn in *; lia.
  - destruct (_ && _); [|discriminate C]. injection C as <-.
    destruct (invoke_callback_rank cb_dispatch_request ec (String.length data)
                (store buf_request_body first data (sys_world s)) _ Hph eq_refl)
      as (ph' & I & R).
    exists ph'. split; [exact I|]. destruct ph'; cbn in *; lia.
  - injection C as <-.
    destruct (invoke_callback_rank cb_complete_request ec (String.length data)
                (sys_world s) _ Hph eq_refl) as (ph' & I & R).
    exists ph'. split; [exact I|]. destruct ph'; cbn in *; lia.
Qed.

Lemma run_uses_remaining (cs : list (nat * error_code * string)) (s s' : system)
    (ph : phase) :
  in_phase ph s -> run cs s = Some s' -> length cs <= remaining ph.
Proof.
  revert s ph; induction cs as [|[[i ec] data] cs IH]; intros s ph I R; cbn [run] in R.
  - cbn. lia.
  - destruct (complete i ec data s) as [s1|] eqn:C; [|discriminate R].
    destruct (complete_uses_one _ _ _ _ _ _ I C) as (ph1 & I1 & L1).
    specialize (IH _ _ I1 R). cbn [length]. lia.
Qed.

(** X7: a session takes at most three completions, the header read, the
    body read and the reply write; after those the reactor has nothing
    left to complete for it, so a connection serves one request. *)
Theorem session_takes_at_most_three_completions
    (client : connection_ptr) (w : world)
    (cs : list (nat * error_code * string)) (s : system) :
  effects w = [] ->
  run cs (start client w) = Some s ->
  length cs <= 3
  /\ (length cs = 3 -> forall i ec data, complete i ec data s = None).
Proof.
  intros E R.
  destruct (start_in_phase client w E) as [I0 _].
  split; [exact (run_uses_remaining _ _ _ _ I0 R)|].
  intros L3 i ec data.
  destruct (complete i ec data s) as [s1|] eqn:C; [|reflexivity].
  assert (R1 : run (cs ++ [(i, ec, data)]) (start client w) = Some s1).
  { clear - R C. revert R. generalize (start client w).
    induction cs as [|[[j e] d] cs IH]; intros s0 R; cbn [run app] in *.
    - injection R as ->. rewrite C. reflexivity.
    - destruct (complete j e d s0); [apply IH, R | discriminate R]. }
  pose proof (run_uses_remaining _ _ _ _ I0 R1) as L.
  rewrite length_app in L. cbn in L. lia.
Qed.

(** X8: in a whole session at most one reply is written and at most one
    action is executed. *)
Theorem session_replies_and_executes_at_most_once
    (client : connection_ptr) (w : world)
    (cs : list (nat * error_code * string)) (s : system) :
  effects w = [] ->
  run cs (start client w) = Some s ->
  length (writes (effects (sys_world s))) <= 1
  /\ length (executions (effects (sys_world s))) <= 1.
Proof.
  intros E0 R.
  destruct (start_in_phase client w E0) as [I0 _].
  destruct (run_in_phase _ _ _ _ I0 R) as [[ph [Hph _]] _].
  destruct (phases_measures _ _ _ Hph) as (_ & W & D).
  split; [destruct ph; cbn in W; lia|].
  assert (X : length (executions (effects (sys_world s)))
              <= length (dispatches (effects (sys_world s)))).
  { revert R.
    apply (run_preserves
             (fun w0 => length (executions (effects w0))
                        <= length (dispatches (effects w0)))).
    - intros [] first data w0 I; exact I.
    - intros cb ec k w0 I.
      destruct (handler_facts cb ec k (add_effects [Completion cb ec] w0))
        as (p & new & E & _ & _ & _ & _ & _ & _ & X & _).
      rewrite E. cbn [snd effects with_self add_effects].
      unfold executions, dispatches in *. rewrite !omap_app, !length_app.
      destruct cb; cbn in *; lia.
    - rewrite start_world. cbn [effects with_self add_effects]. rewrite E0. cbn. lia. }
  destruct ph; cbn in D; lia.
Qed.

(** X10: a request whose header declares a size within the limit is
    read as it was sent: when the header and then a body of the declared
    size arrive without error, [dispatch_request] runs on a session whose
    body buffer is exactly the body received, with no stale or padding
    character, and whose header array is the header received. *)
Theorem request_is_read_as_sent
    (client : connection_ptr) (w : world) (header data : string) (n : N) :
  String.length (raw_request_size (self w)) = REQUEST_HEADER_SIZE_FIELD_LENGTH ->
  String.length header = REQUEST_HEADER_SIZE_FIELD_LENGTH ->
  lexical_cast header = inr n ->
  (n <= REQUEST_HEADER_MAX_SIZE)%N ->
  String.length data = N.to_nat n ->
  exists s1 s2 w1,
    complete 0 no_error header (start client w) = Some s1
    /\ outstanding s1
       = [AsyncRead buf_request_body 0 (String.length data) cb_dispatch_request]
    /\ complete 0 no_error data s1 = Some s2
    /\ request_body (self w1) = data
    /\ raw_request_size (self w1) = header
    /\ sys_world s2 = snd (dispatch_request no_error (String.length data) w1)
    /\ request_body (self (sys_world s2)) = data.
Proof.
  intros Hraw Hlen L G Hdata. apply N.ltb_ge in G.
  unfold start. rewrite (invoke_eq _ _ _ _ _ _ (handle_request_eq client w)).
  match goal with |- context [complete 0 no_error header ?s] => set (s0 := s) end.
  assert (O : outstanding s0
              = [AsyncRead buf_raw_request_size 0 (String.length header)
                   cb_read_request_body])
    by (rewrite Hlen; reflexivity).
  rewrite (complete_read s0 _ _ _ no_error header O).
  set (w0 := store buf_raw_request_size 0 header (sys_world s0)).
  assert (Hw0 : raw_request_size (self w0) = header).
  { cbn. apply overwrite_whole. congruence. }
  assert (L0 : lexical_cast
                 (raw_request_size
                    (self (add_effects [Completion cb_read_request_body no_error] w0)))
               = inr n).
  { cbn [self add_effects]. rewrite Hw0. exact L. }
  pose proof (read_request_body_accepted no_error (String.length header) _ n
                eq_refl L0 G) as E.
  rewrite (invoke_completion cb_read_request_body no_error _ [] w0 _ _ E).
  match goal with |- context [Some ?s = Some _] => set (s1 := s) end.
  assert (O1 : outstanding s1
               = [AsyncRead buf_request_body 0 (String.length data) cb_dispatch_request])
    by (rewrite Hdata; reflexivity).
  exists s1. rewrite (complete_read s1 _ _ _ no_error data O1).
  set (w1 := add_effects [Completion cb_dispatch_request no_error]
               (store buf_request_body 0 data (sys_world s1))).
  assert (B1 : request_body (self w1) = data).
  { cbn. apply overwrite_whole. rewrite resize_length. congruence. }
  assert (R1 : raw_request_size (self w1) = header) by exact Hw0.
  eexists. exists w1.
  split; [reflexivity|]. split; [exact O1|]. split; [reflexivity|].
  split; [exact B1|]. split; [exact R1|].
  unfold invoke. cbn [sys_world]. rewrite emit_then. fold w1. cbn [bound].
  split; [reflexivity|].
  destruct (handler_facts cb_dispatch_request no_error (String.length data) w1)
    as (p & new & E1 & _ & _ & _ & _ & B & _).
  cbn [bound] in E1. rewrite E1. cbn [snd self with_self].
  rewrite B by discriminate. exact B1.
Qed.

(** X11: on a protocol built by the constructor, a body naming
    "request_license" can only lead to the license action, and one naming
    "request_umc_upload" only to the upload action; the action is executed
    exactly when the validator of that very kind accepts the body. *)
Theorem constructed_kinds_run_their_own_action
    (cfg : config) (h : gmap nat action_factory_type)
    (w : world) (err : error_code) (k : nat) (a : action) (name : string) :
  heap w = snd (umcd_protocol_new cfg h) ->
  action_factory (self w) = action_factory (fst (umcd_protocol_new cfg h)) ->
  failed err = false ->
  peek_request_name (request_body (self w)) = inr name ->
  (a, name) = (request_license_action, "request_license")
  \/ (a, name) = (request_umc_upload_action, "request_umc_upload") ->
  executions (since w (snd (dispatch_request err k w)))
  = match snd (read (request_body (self w)) {| schema_kind := name |}) with
    | None => [a]
    | Some _ => []
    end.
Proof.
  intros Hh Ha F P K.
  assert (R : resolve (heap w) (action_factory (self w)) name = Some (descriptor a name)).
  { rewrite Hh, Ha, umcd_protocol_new_eq. cbn [fst snd action_factory default_members].
    unfold resolve. rewrite !lookup_alter_eq, lookup_insert_eq.
    cbn [fmap option_fmap option_map].
    destruct K as [K|K]; injection K as -> ->.
    - rewrite lookup_insert_ne by discriminate. apply lookup_insert_eq.
    - apply lookup_insert_eq. }
  destruct (read (request_body (self w)) {| schema_kind := name |}) as [c [e|]] eqn:V.
  - rewrite (dispatch_request_rejected _ _ _ _ (descriptor a name) _ _ F P R V).
    cbn [snd]. rewrite since_add_effects. destruct e; reflexivity.
  - rewrite (dispatch_request_validated _ _ _ _ (descriptor a name) _ F P R V).
    cbn [snd]. rewrite since_add_effects. unfold action_effects.
    cbn [info_action descriptor].
    destruct (execute a _) as [r| |[e|e]]; reflexivity.
Qed.

End Further.

(** * Properties of the continuous-integration script *)

Section TravisProperties.
Import Travis.
Variable env : string -> string.
Variable status : command -> nat.

Ltac shell :=
  unfold travis, script, upload_wanted, run, exit, mbind, mret, Sh_bind, Sh_ret.

Ltac by_cases :=
  repeat match goal with
         | |- context [String.eqb ?a ?b] => destruct (String.eqb_spec a b)
         | |- context [Nat.eqb ?a ?b] => destruct (Nat.eqb_spec a b)
         end.

(** X12: the script uploads build products only on macOS (once the
    translations were built) and on Windows, and only when an upload id
    is set and the build is not one of a pull request; the result of the
    build itself does not matter. *)
Theorem upload_only_for_branch_builds :
  existsb is_upload (fst (travis env status)) = true
  <-> ((env "TRAVIS_OS_NAME" = "osx" /\ status scons_translations = 0)
       \/ env "TRAVIS_OS_NAME" = "windows")
      /\ env "UPLOAD_ID" <> ""
      /\ env "TRAVIS_PULL_REQUEST" = "false".
Proof.
  shell. by_cases; cbn; intuition (try congruence; try discriminate).
Qed.

(** X13: the script succeeds exactly when the build does: on macOS when
    scons and xcodebuild succeed, on Windows when MSBuild succeeds and,
    for a Release configuration, the WML tests pass, and otherwise when
    the docker run succeeds.  The results of the upload, of the packaging
    and of the bookkeeping commands do not count. *)
Theorem script_succeeds_when_the_build_does :
  snd (travis env status) = 0
  <-> (env "TRAVIS_OS_NAME" = "osx"
       /\ status scons_translations = 0
       /\ status (xcodebuild (env "CFG")) = 0)
      \/ (env "TRAVIS_OS_NAME" = "windows"
          /\ status (msbuild (env "CFG")) = 0
          /\ (env "CFG" = "Release"
              -> status (run_wml_tests (env "WML_TEST_TIME")) = 0))
      \/ (env "TRAVIS_OS_NAME" <> "osx"
          /\ env "TRAVIS_OS_NAME" <> "windows"
          /\ status (docker_run (negb (String.eqb (env "NLS") "only"))
                       (env "HOME") (env "IMAGE") (env "BRANCH")) = 0).
Proof.
  shell. by_cases; cbn; intuition (try congruence; try discriminate; try lia).
Qed.

(** X14: on Windows the build comes first; afterwards the file hashes are
    restored exactly when the build failed and committed exactly when it
    succeeded, and the WML tests run exactly for a successful Release
    build. *)
Theorem windows_bookkeeping_follows_the_build :
  env "TRAVIS_OS_NAME" = "windows" ->
  head (fst (travis env status)) = Some (msbuild (env "CFG"))
  /\ (existsb is_hash_restore (fst (travis env status)) = true
      <-> status (msbuild (env "CFG")) <> 0)
  /\ (existsb is_hash_commit (fst (travis env status)) = true
      <-> status (msbuild (env "CFG")) = 0)
  /\ (existsb is_wml_tests (fst (travis env status)) = true
      <-> env "CFG" = "Release" /\ status (msbuild (env "CFG")) = 0).
Proof.
  intros W. shell. rewrite W.
  change (String.eqb "windows" "osx") with false.
  change (String.eqb "windows" "windows") with true. cbv iota.
  by_cases; cbn; intuition (try congruence; try discriminate; try lia).
Qed.

End TravisProperties.

(** ** The further properties at work *)

Section FurtherExamples.
#[local] Existing Instance Demo.collaborators.

Lemma accepted_header_reads_its_size_witness :
  exists w',
    read_request_body no_error 10 (Demo.with_header "0000000017" Demo.fresh_world)
    = (inr tt, w')
    /\ request_body (self w')
       = resize (N.to_nat 17)
           (request_body (self (Demo.with_header "0000000017" Demo.fresh_world)))
    /\ String.length (request_body (self w')) = N.to_nat 17
    /\ since (Demo.with_header "0000000017" Demo.fresh_world) w'
       = [FunctionTracer "read_request_body";
          Log sev_debug (" -- Request of size: " +:+ pretty 17%N);
          Resize 17;
          AsyncRead buf_request_body 0 (N.to_nat 17) cb_dispatch_request]
    /\ resizes (since (Demo.with_header "0000000017" Demo.fresh_world) w') = [17%N]
    /\ reads (since (Demo.with_header "0000000017" Demo.fresh_world) w')
       = [(buf_request_body, N.to_nat 17)]
    /\ writes (since (Demo.with_header "0000000017" Demo.fresh_world) w') = []
    /\ reply (self w') = reply (self (Demo.with_header "0000000017" Demo.fresh_world)).
Proof.
  refine (accepted_header_reads_its_size
            (Demo.with_header "0000000017" Demo.fresh_world) no_error 10 17 _ _ _).
  - reflexivity.
  - vm_compute. reflexivity.
  - vm_compute. discriminate.
Defined.

Lemma unnamed_body_is_invalid_packet_witness :
  exists w',
    dispatch_request no_error 0 (Demo.with_body "" Demo.fresh_world) = (inr tt, w')
    /\ reply (self w') = error_reply "The packet is invalid."
    /\ writes (since (Demo.with_body "" Demo.fresh_world) w')
       = [["[error]"; "The packet is invalid."]]
    /\ executions (since (Demo.with_body "" Demo.fresh_world) w') = []
    /\ request (self w') = request (self (Demo.with_body "" Demo.fresh_world))
    /\ since (Demo.with_body "" Demo.fresh_world) w'
       = FunctionTracer "dispatch_request"
           :: invalid_packet_effects FN_dispatch_request
                (ex_std {| what := "request name not found" |}).
Proof.
  refine (unnamed_body_is_invalid_packet
            (Demo.with_body "" Demo.fresh_world) no_error 0
            (ex_std {| what := "request name not found" |}) _ _).
  - reflexivity.
  - vm_compute. reflexivity.
Defined.

Lemma raising_action_is_invalid_packet_witness :
  exists w',
    dispatch_request (H := Scenario.collaborators) no_error 20
      (Demo.with_body "request_umc_upload x" Scenario.fresh_world) = (inr tt, w')
    /\ executions (since (Demo.with_body "request_umc_upload x" Scenario.fresh_world) w')
       = [request_umc_upload_action]
    /\ reply (self w') = error_reply "The packet is invalid."
    /\ writes (since (Demo.with_body "request_umc_upload x" Scenario.fresh_world) w')
       = [["[error]"; "The packet is invalid."]]
    /\ since (Demo.with_body "request_umc_upload x" Scenario.fresh_world) w'
       = FunctionTracer "dispatch_request"
           :: dispatch_prologue "request_umc_upload" "request_umc_upload x"
           ++ [Log sev_debug " -- request validated.";
               Execute request_umc_upload_action (Config [("payload", "x")] [])]
           ++ invalid_packet_effects (H := Scenario.collaborators) FN_dispatch_request
                Scenario.refusal.
Proof.
  refine (raising_action_is_invalid_packet (H := Scenario.collaborators)
            (Demo.with_body "request_umc_upload x" Scenario.fresh_world) no_error 20
            "request_umc_upload"
            (descriptor request_umc_upload_action "request_umc_upload")
            (Config [("payload", "x")] []) Scenario.refusal _ _ _ _ _).
  - reflexivity.
  - vm_compute. reflexivity.
  - vm_compute. reflexivity.
  - vm_compute. reflexivity.
  - vm_compute. reflexivity.
Defined.

Lemma session_keeps_its_configuration_witness :
  server_config (self (sys_world Demo.served)) = server_config (self Demo.fresh_world)
  /\ action_factory (self (sys_world Demo.served)) = action_factory (self Demo.fresh_world)
  /\ client_connection (self (sys_world Demo.served)) = Some 1
  /\ heap (sys_world Demo.served) = heap Demo.fresh_world.
Proof.
  refine (session_keeps_its_configuration 1 Demo.fresh_world Demo.cycle Demo.served _).
  vm_compute. reflexivity.
Defined.

Lemma session_reads_within_limit_witness :
  Forall within_limit (effects (sys_world Demo.served)).
Proof.
  refine (session_reads_within_limit 1 Demo.fresh_world Demo.cycle Demo.served _ _).
  - reflexivity.
  - vm_compute. reflexivity.
Defined.

Lemma session_takes_at_most_three_completions_witness :
  length Demo.cycle <= 3
  /\ (length Demo.cycle = 3 -> forall i ec data, complete i ec data Demo.served = None).
Proof.
  refine (session_takes_at_most_three_completions
            1 Demo.fresh_world Demo.cycle Demo.served _ _).
  - reflexivity.
  - vm_compute. reflexivity.
Defined.

Lemma session_replies_and_executes_at_most_once_witness :
  length (writes (effects (sys_world Demo.served))) <= 1
  /\ length (executions (effects (sys_world Demo.served))) <= 1.
Proof.
  refine (session_replies_and_executes_at_most_once
            1 Demo.fresh_world Demo.cycle Demo.served _ _).
  - reflexivity.
  - vm_compute. reflexivity.
Defined.

Lemma request_is_read_as_sent_witness :
  exists s1 s2 w1,
    complete 0 no_error "0000000017" (start 1 Demo.fresh_world) = Some s1
    /\ outstanding s1
       = [AsyncRead buf_request_body 0 (String.length "request_license x")
            cb_dispatch_request]
    /\ complete 0 no_error "request_license x" s1 = Some s2
    /\ request_body (self w1) = "request_license x"
    /\ raw_request_size (self w1) = "0000000017"
    /\ sys_world s2
       = snd (dispatch_request no_error (String.length "request_license x") w1)
    /\ request_body (self (sys_world s2)) = "request_license x".
Proof.
  refine (request_is_read_as_sent 1 Demo.fresh_world "0000000017" "request_license x" 17
            _ _ _ _ _).
  - vm_compute. reflexivity.
  - reflexivity.
  - vm_compute. reflexivity.
  - vm_compute. discriminate.
  - reflexivity.
Defined.

Lemma constructed_kinds_run_their_own_action_witness :
  executions
    (since (Demo.with_body "request_license x" Scenario.copied_world)
       (snd (dispatch_request no_error 17
               (Demo.with_body "request_license x" Scenario.copied_world))))
  = match snd (read (request_body
                       (self (Demo.with_body "request_license x" Scenario.copied_world)))
                 {| schema_kind := "request_license" |}) with
    | None => [request_license_action]
    | Some _ => []
    end.
Proof.
  refine (constructed_kinds_run_their_own_action empty_config ∅
            (Demo.with_body "request_license x" Scenario.copied_world) no_error 17
            request_license_action "request_license" _ _ _ _ _).
  - vm_compute. reflexivity.
  - vm_compute. reflexivity.
  - reflexivity.
  - vm_compute. reflexivity.
  - left. reflexivity.
Defined.

Lemma windows_bookkeeping_follows_the_build_witness :
  head (fst (Travis.travis Travis.windows_release (fun _ => 0)))
  = Some (Travis.msbuild (Travis.windows_release "CFG"))
  /\ (existsb Travis.is_hash_restore
        (fst (Travis.travis Travis.windows_release (fun _ => 0))) = true
      <-> 0 <> 0)
  /\ (existsb Travis.is_hash_commit
        (fst (Travis.travis Travis.windows_release (fun _ => 0))) = true
      <-> 0 = 0)
  /\ (existsb Travis.is_wml_tests
        (fst (Travis.travis Travis.windows_release (fun _ => 0))) = true
      <-> Travis.windows_release "CFG" = "Release" /\ 0 = 0).
Proof.
  refine (windows_bookkeeping_follows_the_build
            Travis.windows_release (fun _ => 0) _).
  reflexivity.
Defined.

Lemma every_frame_is_answered_witness :
  length (reads (since (Demo.with_header "0000000017" Demo.fresh_world)
                   (snd (read_request_body no_error 10
                           (Demo.with_header "0000000017" Demo.fresh_world)))))
  + length (writes (since (Demo.with_header "0000000017" Demo.fresh_world)
                      (snd (read_request_body no_error 10
                              (Demo.with_header "0000000017" Demo.fresh_world))))) = 1
  /\ (executions (since (Demo.with_header "0000000017" Demo.fresh_world)
                    (snd (dispatch_request no_error 10
                            (Demo.with_header "0000000017" Demo.fresh_world)))) <> []
      \/ writes (since (Demo.with_header "0000000017" Demo.fresh_world)
                   (snd (dispatch_request no_error 10
                           (Demo.with_header "0000000017" Demo.fresh_world))))
         = [to_buffers (make_error_reply (condition_message invalid_packet))]).
Proof.
  refine (every_frame_is_answered no_error 10
            (Demo.with_header "0000000017" Demo.fresh_world) _).
  reflexivity.
Defined.

End FurtherExamples.
